(** * A shallow embedding of Dynamic_Mem_Alloc.c (implicit free list, best fit)

    The heap is a word-addressed memory [Z -> Z] holding the 32-bit
    [size_status] words of block headers and footers, together with the
    globals [heap_start] and [alloc_size], the static [allocated_once] of
    [init_heap], and the single region obtained from [mmap].  Addresses are
    unbounded integers (64-bit pointers never wrap here); [int] arithmetic
    wraps modulo 2^32 the way GCC converts out-of-range values.  A read or
    write outside the mapped region is a memory fault. *)

From Stdlib Require Import ZArith List Lia Bool FunctionalExtensionality.
Import ListNotations.
Open Scope Z_scope.

(** ** Machine integers *)

Definition INT_MAX : Z := 2 ^ 31 - 1.
Definition INT_MIN : Z := - 2 ^ 31.

(** Conversion of a mathematical value to [int] (two's complement). *)
Definition to_int (z : Z) : Z := (z + 2 ^ 31) mod 2 ^ 32 - 2 ^ 31.

(** Conversion of a mathematical value to [unsigned long] (64 bits). *)
Definition to_ulong (z : Z) : Z := z mod 2 ^ 64.

Definition NULL : Z := 0.

(** [sizeof(blockHeader)]: one [int]. *)
Definition sizeof_blockHeader : Z := 4.

(** ** Machine state *)

Record heap := mkHeap {
  heap_start : Z;              (* blockHeader *heap_start *)
  alloc_size : Z;              (* int alloc_size *)
  allocated_once : Z;          (* static int allocated_once in init_heap *)
  region : option (Z * Z);     (* the mmap'ed area: base, length *)
  mem : Z -> Z                 (* size_status word stored at each address *)
}.

(** Before [init_heap]: [heap_start = NULL], nothing mapped. *)
Definition heap0 : heap :=
  {| heap_start := NULL; alloc_size := 0; allocated_once := 0;
     region := None; mem := fun _ => 0 |}.

Definition upd (m : Z -> Z) (a v : Z) : Z -> Z :=
  fun x => if Z.eqb x a then v else m x.

(** A 4-byte word at [a] is accessible when it lies inside the region. *)
Definition mapped (h : heap) (a : Z) : bool :=
  match region h with
  | Some (b, l) => (b <=? a) && (a + 4 <=? b + l)
  | None => false
  end.

(** ** A small state and error monad *)

Inductive res (A : Type) : Type :=
| Ok (a : A) (h : heap)
| Fault
| OutOfFuel.
Arguments Ok {A}.
Arguments Fault {A}.
Arguments OutOfFuel {A}.

Definition M (A : Type) : Type := heap -> res A.

Definition ret {A} (a : A) : M A := fun h => Ok a h.

Definition bind {A B} (m : M A) (k : A -> M B) : M B :=
  fun h => match m h with
           | Ok a h' => k a h'
           | Fault => Fault
           | OutOfFuel => OutOfFuel
           end.

Notation "x <- m ;; k" := (bind m (fun x => k))
  (at level 61, m at next level, right associativity).
Notation "m ;;; k" := (bind m (fun _ => k))
  (at level 61, right associativity).

Definition out_of_fuel {A} : M A := fun _ => OutOfFuel.

Definition load (a : Z) : M Z :=
  fun h => if mapped h a then Ok (mem h a) h else Fault.

Definition store (a v : Z) : M unit :=
  fun h => if mapped h a
           then Ok tt {| heap_start := heap_start h; alloc_size := alloc_size h;
                         allocated_once := allocated_once h; region := region h;
                         mem := upd (mem h) a v |}
           else Fault.

Definition get_heap_start : M Z := fun h => Ok (heap_start h) h.
Definition get_alloc_size : M Z := fun h => Ok (alloc_size h) h.

(** ** balloc *)

(** [int blockSize = ((size + sizeof(blockHeader) + 7) / 8) * 8;]
    The sum is computed in [unsigned long] and converted back to [int]. *)
Definition blockSize_of (size : Z) : Z :=
  to_int (to_ulong (to_ulong (to_ulong size + sizeof_blockHeader + 7) / 8 * 8)).

(** The best-fit scan [while (current->size_status != 1) { ... }];
    [fuel] bounds the number of iterations of the loop body. *)
Fixpoint balloc_scan (fuel : nat) (blockSize current bestFit : Z) : M Z :=
  w <- load current ;;
  if w =? 1 then ret bestFit else
  match fuel with
  | O => out_of_fuel
  | S fuel' =>
      let currentSize := Z.shiftl (Z.shiftr w 2) 2 in
      if (Z.land w 1 =? 0) && (currentSize >=? blockSize) then
        better <- (if bestFit =? NULL then ret true
                   else bw <- load bestFit ;;
                        ret (currentSize <? Z.shiftl (Z.shiftr bw 2) 2)) ;;
        if better then
          if currentSize =? blockSize then ret current
          else balloc_scan fuel' blockSize (current + currentSize) current
        else balloc_scan fuel' blockSize (current + currentSize) bestFit
      else balloc_scan fuel' blockSize (current + currentSize) bestFit
  end.

Definition balloc (fuel : nat) (size : Z) : M Z :=
  if size <? 1 then ret NULL else
  let blockSize := blockSize_of size in
  current <- get_heap_start ;;
  bestFit <- balloc_scan fuel blockSize current NULL ;;
  if bestFit =? NULL then ret NULL else
  bw <- load bestFit ;;
  let remainder := to_int (Z.shiftl (Z.shiftr bw 2) 2 - blockSize) in
  if to_ulong remainder >=? to_ulong (sizeof_blockHeader * 2 + 8) then
    store bestFit (Z.lor (Z.lor blockSize (Z.land bw 3)) 1) ;;;
    let newBlock := bestFit + blockSize in
    store newBlock (Z.lor remainder 2) ;;;
    let nextBlock := newBlock + remainder in
    nw <- load nextBlock ;;
    (if negb (nw =? 1) then store nextBlock (Z.lor nw 2) else ret tt) ;;;
    ret (bestFit + sizeof_blockHeader)
  else
    store bestFit (Z.lor bw 1) ;;;
    bw' <- load bestFit ;;
    let nextBlock := bestFit + Z.shiftl (Z.shiftr bw' 2) 2 in
    nw <- load nextBlock ;;
    (if negb (nw =? 1) then store nextBlock (Z.lor nw 2) else ret tt) ;;;
    ret (bestFit + sizeof_blockHeader).

(** ** bfree *)

Definition bfree (ptr : Z) : M Z :=
  hs <- get_heap_start ;;
  asz <- get_alloc_size ;;
  if (ptr =? NULL) || negb (to_ulong ptr mod 8 =? 0)
     || (ptr <? hs + sizeof_blockHeader) || (ptr >=? hs + asz)
  then ret (-1) else
  let block := ptr - sizeof_blockHeader in
  w <- load block ;;
  if Z.land w 1 =? 0 then ret (-1) else
  store block (Z.land w (Z.lnot 1)) ;;;
  w' <- load block ;;
  let nextBlock := block + Z.land w' (Z.lnot 3) in
  nw <- load nextBlock ;;
  (if negb (nw =? 1) then store nextBlock (Z.land nw (Z.lnot 2)) else ret tt) ;;;
  ret 0.

(** ** coalesce *)

(** Inner loop: absorb the free blocks that follow [current];
    returns the final [nextBlock]. *)
Fixpoint coalesce_merge (fuel : nat) (current nextBlock : Z) : M Z :=
  nw <- load nextBlock ;;
  if negb (nw =? 1) && (Z.land nw 1 =? 0) then
    match fuel with
    | O => out_of_fuel
    | S fuel' =>
        cw <- load current ;;
        store current (to_int (cw + Z.land nw (Z.lnot 3))) ;;;
        cw' <- load current ;;
        coalesce_merge fuel' current (current + Z.land cw' (Z.lnot 3))
    end
  else ret nextBlock.

(** Outer loop; [mfuel] is the budget of each inner loop. *)
Fixpoint coalesce_loop (mfuel fuel : nat) (current : Z) : M unit :=
  w <- load current ;;
  if w =? 1 then ret tt else
  match fuel with
  | O => out_of_fuel
  | S fuel' =>
      (if Z.land w 1 =? 0 then
         nextBlock <- coalesce_merge mfuel current (current + Z.land w (Z.lnot 3)) ;;
         nw <- load nextBlock ;;
         (if negb (nw =? 1) then store nextBlock (Z.lor nw 2) else ret tt)
       else ret tt) ;;;
      cw <- load current ;;
      coalesce_loop mfuel fuel' (current + Z.land cw (Z.lnot 3))
  end.

Definition coalesce (fuel : nat) : M Z :=
  current <- get_heap_start ;;
  coalesce_loop fuel fuel current ;;;
  ret 0.

(** ** init_heap *)

(** The operating system: [getpagesize()] and the result of
    [open("/dev/zero")] followed by [mmap] of a given length
    ([None] for either failure). *)
Record os := mkOS { pagesize : Z; os_mmap : Z -> option Z }.

Definition set_alloc_size (v : Z) : M unit :=
  fun h => Ok tt {| heap_start := heap_start h; alloc_size := v;
                   allocated_once := allocated_once h; region := region h;
                   mem := mem h |}.

(** A successful [mmap] of [/dev/zero]: a fresh zero-filled region. *)
Definition map_region (base len : Z) : M unit :=
  fun h => Ok tt {| heap_start := heap_start h; alloc_size := alloc_size h;
                   allocated_once := allocated_once h; region := Some (base, len);
                   mem := fun _ => 0 |}.

Definition set_globals (hs asz once : Z) : M unit :=
  fun h => Ok tt {| heap_start := hs; alloc_size := asz;
                   allocated_once := once; region := region h; mem := mem h |}.

Definition get_allocated_once : M Z := fun h => Ok (allocated_once h) h.

Definition init_heap (o : os) (sizeOfRegion : Z) : M Z :=
  once <- get_allocated_once ;;
  if negb (0 =? once) then ret (-1) else
  if sizeOfRegion <=? 0 then ret (-1) else
  let pgsz := pagesize o in
  let padsize := Z.rem sizeOfRegion pgsz in
  let padsize := Z.rem (pgsz - padsize) pgsz in
  let asz := to_int (sizeOfRegion + padsize) in
  set_alloc_size asz ;;;
  match os_mmap o (to_ulong asz) with
  | None => ret (-1)
  | Some mmap_ptr =>
      map_region mmap_ptr (to_ulong asz) ;;;
      let asz' := to_int (asz - 8) in
      let hs := mmap_ptr + sizeof_blockHeader in
      set_globals hs asz' 1 ;;;
      let end_mark := hs + asz' in
      store end_mark 1 ;;;
      store hs asz' ;;;
      w <- load hs ;;
      store hs (to_int (w + 2)) ;;;
      let footer := hs + asz' - 4 in
      store footer asz' ;;;
      ret 0
  end.

(** ** disp_heap, as a structured report *)

Record row := mkRow {
  r_no : Z; r_used : bool; r_prev_used : bool;
  r_begin : Z; r_end : Z; r_size : Z }.

Fixpoint disp_loop (fuel : nat) (counter current used free : Z)
  : M (list row * (Z * Z)) :=
  w <- load current ;;
  if w =? 1 then ret ([], (used, free)) else
  match fuel with
  | O => out_of_fuel
  | S fuel' =>
      let is_used := Z.land w 1 =? 1 in
      let t_size := if is_used then w - 1 else w in
      let prev_used := Z.land t_size 2 =? 2 in
      let t_size := if prev_used then t_size - 2 else t_size in
      let used := if is_used then used + t_size else used in
      let free := if is_used then free else free + t_size in
      rest <- disp_loop fuel' (counter + 1) (current + t_size) used free ;;
      ret (mkRow counter is_used prev_used current (current + t_size - 1) t_size
             :: fst rest, snd rest)
  end.

Definition disp_heap (fuel : nat) : M (list row * (Z * Z)) :=
  current <- get_heap_start ;;
  disp_loop fuel 1 current 0 0.

(** ** Sequences of calls *)

Inductive op :=
| OInit (sizeOfRegion : Z)
| OAlloc (size : Z)
| OFree (ptr : Z)
| OCoalesce.

Definition exec (o : os) (fuel : nat) (c : op) : M Z :=
  match c with
  | OInit n => init_heap o n
  | OAlloc n => balloc fuel n
  | OFree p => bfree p
  | OCoalesce => coalesce fuel
  end.

Fixpoint run (o : os) (fuel : nat) (cs : list op) : M (list Z) :=
  match cs with
  | [] => ret []
  | c :: cs' => r <- exec o fuel c ;; rs <- run o fuel cs' ;; ret (r :: rs)
  end.

(** A concrete Linux/x86-64 environment: 4 KiB pages, and an [mmap]
    placing the region at 0x100000. *)
Definition linux : os :=
  mkOS 4096 (fun len => if (0 <? len) && (len <? 2 ^ 31) then Some 1048576 else None).


Definition result_heap {A} (r : res A) : heap :=
  match r with Ok _ h => h | _ => heap0 end.

(** A program's own write through a payload pointer it was given. *)
Definition user_write (a v : Z) : M unit := store a v.

(** ** Decoding the block sequence *)

(** The size field of a header or footer word: [size_status & ~3]. *)
Definition hsize (w : Z) : Z := Z.land w (Z.lnot 3).

Definition is_free (w : Z) : Prop := Z.land w 1 = 0.

(** Bit 1 of a header: the previous block is allocated. *)
Definition prev_alloc_bit (w : Z) : bool := Z.testbit w 1.

Definition valid_hdr (w : Z) : Prop :=
  0 <= w /\ 8 <= hsize w /\ hsize w mod 8 = 0.

(** [seg m a b ws]: starting at [a] and advancing by each stored size, the
    headers read are exactly [ws] and the walk lands on [b]. *)
Fixpoint seg (m : Z -> Z) (a b : Z) (ws : list Z) : Prop :=
  match ws with
  | [] => a = b
  | w :: t => m a = w /\ valid_hdr w /\ seg m (a + hsize w) b t
  end.

(** The decoded blocks: header address and header word. *)
Fixpoint blocks (a : Z) (ws : list Z) : list (Z * Z) :=
  match ws with
  | [] => []
  | w :: t => (a, w) :: blocks (a + hsize w) t
  end.

Fixpoint sum_sizes (ws : list Z) : Z :=
  match ws with
  | [] => 0
  | w :: t => hsize w + sum_sizes t
  end.

(** The rows [disp_heap] prints for the blocks [ws] starting at address
    [a], numbered from [k]. *)
Fixpoint block_rows (k a : Z) (ws : list Z) : list row :=
  match ws with
  | [] => []
  | w :: t => mkRow k (Z.land w 1 =? 1) (prev_alloc_bit w) a (a + hsize w - 1) (hsize w)
                :: block_rows (k + 1) (a + hsize w) t
  end.

(** Total size of the allocated, resp. free, blocks of [ws]. *)
Fixpoint used_bytes (ws : list Z) : Z :=
  match ws with
  | [] => 0
  | w :: t => (if Z.land w 1 =? 1 then hsize w else 0) + used_bytes t
  end.

Fixpoint free_bytes (ws : list Z) : Z :=
  match ws with
  | [] => 0
  | w :: t => (if Z.land w 1 =? 1 then 0 else hsize w) + free_bytes t
  end.

(** The allocated blocks of [ws] placed from [a]: address and size. *)
Fixpoint alloc_blocks (a : Z) (ws : list Z) : list (Z * Z) :=
  match ws with
  | [] => []
  | w :: t => (if Z.land w 1 =? 0 then [] else [(a, hsize w)]) ++ alloc_blocks (a + hsize w) t
  end.

(** An initialized heap whose blocks are [ws]: they tile
    [heap_start, heap_start + alloc_size), which ends on the sentinel. *)
Definition wf (h : heap) (ws : list Z) : Prop :=
  allocated_once h = 1 /\ 4 <= heap_start h /\
  region h = Some (heap_start h - 4, alloc_size h + 8) /\
  8 <= alloc_size h /\ alloc_size h + 8 <= INT_MAX /\
  seg (mem h) (heap_start h) (heap_start h + alloc_size h) ws /\
  mem h (heap_start h + alloc_size h) = 1.

(** Before any successful [init_heap]. *)
Definition uninit (h : heap) : Prop :=
  allocated_once h = 0 /\ region h = None /\ heap_start h = NULL.

Fixpoint no_adj_free (ws : list Z) : Prop :=
  match ws with
  | w1 :: ((w2 :: _) as t) => ~ (is_free w1 /\ is_free w2) /\ no_adj_free t
  | _ => True
  end.

(** What one pass of [coalesce] leaves: every free block is followed by the
    sentinel or by an allocated block whose bit 1 is set. *)
Fixpoint coalesced (ws : list Z) : Prop :=
  match ws with
  | [] => True
  | w :: t =>
      (is_free w -> match t with
                    | [] => True
                    | w2 :: _ => ~ is_free w2 /\ Z.lor w2 2 = w2
                    end) /\ coalesced t
  end.

(** ** The best-fit policy, as the specification words it *)

(** The smallest multiple of 8 that is at least [k]. *)
Definition round_up8 (k : Z) : Z := 8 * ((k + 7) / 8).

Definition eligible (bs w : Z) : Prop := is_free w /\ bs <= hsize w.

(** [r] (with header word [w]) is the smallest eligible block of [bl], and
    every eligible block before it is strictly larger. *)
Definition best_fit (bs : Z) (bl : list (Z * Z)) (r : Z) : Prop :=
  exists pre w post,
    bl = pre ++ (r, w) :: post /\ eligible bs w /\
    (forall y w', In (y, w') bl -> eligible bs w' -> hsize w <= hsize w') /\
    (forall y w', In (y, w') pre -> eligible bs w' -> hsize w < hsize w').

(** The scan of [balloc] over a decoded block list. *)
Fixpoint pick (bs c : Z) (ws : list Z) (best bsz : Z) : Z :=
  match ws with
  | [] => best
  | w :: t =>
      if (Z.land w 1 =? 0) && (bs <=? hsize w) && ((best =? NULL) || (hsize w <? bsz))
      then if hsize w =? bs then c else pick bs (c + hsize w) t c (hsize w)
      else pick bs (c + hsize w) t best bsz
  end.

Definition with_mem (h : heap) (m : Z -> Z) : heap :=
  {| heap_start := heap_start h; alloc_size := alloc_size h;
     allocated_once := allocated_once h; region := region h; mem := m |}.

(** Assumptions on the operating system: page size a multiple of 8 between
    16 bytes and 1 GiB, [mmap] returns a non-negative address and cannot map
    2^63 bytes or more. *)
Definition os_ok (o : os) : Prop :=
  16 <= pagesize o <= 2 ^ 30 /\ pagesize o mod 8 = 0 /\
  (forall len base, os_mmap o len = Some base -> 0 <= base /\ len < 2 ^ 63).

(** Every address of [a, b] is accessible in an initialized heap. *)
Definition covers (h : heap) (a b : Z) : Prop :=
  forall y, a <= y <= b -> mapped h y = true.

(** Accumulator of the scan: the best block among those already passed. *)
Definition scan_acc (bs : Z) (pre : list (Z * Z)) (best bsz : Z) : Prop :=
  (best = NULL /\ forall y w, In (y, w) pre -> ~ eligible bs w) \/
  (best <> NULL /\ exists p w0 q,
     pre = p ++ (best, w0) :: q /\ eligible bs w0 /\ hsize w0 = bsz /\
     (forall y w, In (y, w) pre -> eligible bs w -> bsz <= hsize w) /\
     (forall y w, In (y, w) p -> eligible bs w -> bsz < hsize w)).

(** The checks [bfree] makes before reading memory; [true] means [-1]. *)
Definition bfree_rejects (h : heap) (ptr : Z) : bool :=
  (ptr =? NULL) || negb (to_ulong ptr mod 8 =? 0)
  || (ptr <? heap_start h + sizeof_blockHeader) || (ptr >=? heap_start h + alloc_size h).

(** The arguments of [init_heap] and [balloc] are C [int]s. *)
Definition int_arg (c : op) : Prop :=
  match c with
  | OInit n | OAlloc n => INT_MIN <= n <= INT_MAX
  | _ => True
  end.

Definition heap_inv (h : heap) : Prop := uninit h \/ exists ws, wf h ws.

(** ** Concrete runs on [linux]

    The region is mapped at 0x100000 (1048576); [heap_start] is 1048580 and
    [alloc_size] is 4088, the sentinel word sits at 1052668. *)

Definition h_init : heap := result_heap (run linux 100 [OInit 4096] heap0).

(** [balloc(100)]: one allocated block of 104 bytes, then a free block. *)
Definition h_A : heap := result_heap (run linux 100 [OInit 4096; OAlloc 100] heap0).

(** [balloc(16)] once, then twice: blocks of 24 bytes at 1048580 and 1048604. *)
Definition h_one : heap := result_heap (run linux 100 [OInit 4096; OAlloc 16] heap0).

Definition h_two : heap :=
  result_heap (run linux 100 [OInit 4096; OAlloc 16; OAlloc 16] heap0).

(** [bfree] of the first of the two blocks. *)
Definition h_freed : heap := result_heap (bfree 1048584 h_two).

(** [balloc(4)] on [h_freed]: the freed 24-byte block is split into 8 + 16. *)
Definition h_split : heap := result_heap (balloc 100 4 h_freed).

(** Three blocks of 24 bytes, the first two freed. *)
Definition h_pair_freed : heap :=
  result_heap (run linux 100 [OInit 4096; OAlloc 16; OAlloc 16; OAlloc 16;
                              OFree 1048584; OFree 1048608] heap0).

Definition h_coal : heap := result_heap (coalesce 100 h_pair_freed).

(** After [balloc(100)], the program stores [v] in the word 1048588 of its
    payload (which starts at 1048584). *)
Definition h_user (v : Z) : heap := result_heap (user_write 1048588 v h_A).

(** The footer of every free block, its last word, holds the block's size. *)
Definition free_footers_ok (h : heap) (ws : list Z) : Prop :=
  forall a w, In (a, w) (blocks (heap_start h) ws) -> is_free w ->
    hsize (mem h (a + hsize w - 4)) = hsize w.

(** ** Bit-level facts about [size_status] words *)

Lemma testbit_small c i : 0 <= c < 4 -> 2 <= i -> Z.testbit c i = false.
Proof.
  intros Hc Hi.
  assert (c = 0 \/ c = 1 \/ c = 2 \/ c = 3) as [-> | [-> | [-> | ->]]] by lia;
    apply Z.bits_above_log2; simpl; lia.
Qed.

Ltac bitwise :=
  apply Z.bits_inj'; intros i Hi;
  repeat rewrite ?Z.lor_spec, ?Z.land_spec, ?Z.lnot_spec by lia;
  repeat match goal with
         | |- context [Z.testbit ?x i] => is_var x; destruct (Z.testbit x i)
         end;
  destruct (Z.eq_dec i 0) as [-> | ?]; try reflexivity;
  destruct (Z.eq_dec i 1) as [-> | ?]; try reflexivity;
  rewrite ?Z.testbit_0_l, ?(testbit_small 1 i), ?(testbit_small 2 i), ?(testbit_small 3 i) by lia;
  reflexivity.

(** [lia] on a goal whose context holds local definitions. *)
Ltac lia' :=
  unfold INT_MAX, NULL in *;
  repeat (match goal with x := _ |- _ => clearbody x end); lia.

(** The same, after turning [mod] and [/] into their defining equations. *)
Ltac liam :=
  unfold INT_MAX, NULL in *;
  repeat (match goal with x := _ |- _ => clearbody x end);
  Z.div_mod_to_equations; lia.

Lemma hsize_lor1 w : hsize (Z.lor w 1) = hsize w.
Proof. unfold hsize; bitwise. Qed.

Lemma hsize_lor2 w : hsize (Z.lor w 2) = hsize w.
Proof. unfold hsize; bitwise. Qed.

Lemma hsize_clear1 w : hsize (Z.land w (Z.lnot 1)) = hsize w.
Proof. unfold hsize; bitwise. Qed.

Lemma hsize_clear2 w : hsize (Z.land w (Z.lnot 2)) = hsize w.
Proof. unfold hsize; bitwise. Qed.

Lemma hsize_split_hdr b w : hsize (Z.lor (Z.lor b (Z.land w 3)) 1) = hsize b.
Proof. unfold hsize; bitwise. Qed.

Lemma hsize_idem w : hsize (hsize w) = hsize w.
Proof. unfold hsize; bitwise. Qed.

Lemma par_lor1 w : Z.land (Z.lor w 1) 1 = 1.
Proof. bitwise. Qed.

Lemma par_lor2 w : Z.land (Z.lor w 2) 1 = Z.land w 1.
Proof. bitwise. Qed.

Lemma par_clear1 w : Z.land (Z.land w (Z.lnot 1)) 1 = 0.
Proof. bitwise. Qed.

Lemma par_clear2 w : Z.land (Z.land w (Z.lnot 2)) 1 = Z.land w 1.
Proof. bitwise. Qed.

Lemma par_split_hdr b w : Z.land (Z.lor (Z.lor b (Z.land w 3)) 1) 1 = 1.
Proof. bitwise. Qed.

Lemma lor2_idem w : Z.lor (Z.lor w 2) 2 = Z.lor w 2.
Proof. bitwise. Qed.

Lemma shift_hsize w : Z.shiftl (Z.shiftr w 2) 2 = hsize w.
Proof.
  unfold hsize. rewrite <- Z.ldiff_ones_r by lia.
  apply Z.bits_inj'; intros i Hi.
  rewrite Z.ldiff_spec, Z.land_spec, Z.lnot_spec by lia. reflexivity.
Qed.

Lemma hsize_arith w : hsize w = w - w mod 4.
Proof.
  rewrite <- shift_hsize, Z.shiftl_mul_pow2, Z.shiftr_div_pow2 by lia.
  change (2 ^ 2) with 4. pose proof (Z.div_mod w 4). lia.
Qed.

Lemma par_arith w : Z.land w 1 = w mod 2.
Proof. change 1 with (Z.ones 1). rewrite Z.land_ones by lia. reflexivity. Qed.

Lemma hsize_nonneg w : 0 <= w -> 0 <= hsize w.
Proof. intros. unfold hsize. apply Z.land_nonneg. lia. Qed.

Lemma hsize_le w : 0 <= w -> hsize w <= w <= hsize w + 3.
Proof. intros. rewrite hsize_arith. pose proof (Z.mod_pos_bound w 4). lia. Qed.

Lemma hsize_of_mult4 b : b mod 4 = 0 -> hsize b = b.
Proof. intros. rewrite hsize_arith. lia. Qed.

Lemma hsize_add w s : s mod 4 = 0 -> hsize (w + s) = hsize w + s.
Proof.
  intros Hs. rewrite !hsize_arith.
  assert ((w + s) mod 4 = w mod 4) as ->.
  { rewrite Zplus_mod, Hs, Z.add_0_r, Z.mod_mod by lia. reflexivity. }
  lia.
Qed.

Lemma par_add w s : s mod 2 = 0 -> Z.land (w + s) 1 = Z.land w 1.
Proof.
  intros Hs. rewrite !par_arith, Zplus_mod, Hs, Z.add_0_r, Z.mod_mod by lia.
  reflexivity.
Qed.

Lemma valid_ne1 w : valid_hdr w -> w <> 1.
Proof. intros (_ & H & _) ->. change (hsize 1) with 0 in H. lia. Qed.

(** ** Block sequences *)

Lemma seg_sum m a b ws : seg m a b ws -> b = a + sum_sizes ws.
Proof.
  revert a; induction ws as [|w t IH]; simpl; intros a H.
  - lia.
  - destruct H as (_ & _ & H). apply IH in H. lia.
Qed.

Lemma seg_len m a b ws : seg m a b ws -> 8 * Z.of_nat (length ws) <= b - a.
Proof.
  revert a; induction ws as [|w t IH]; simpl; intros a H.
  - lia.
  - destruct H as (_ & (_ & Hv & _) & H). apply IH in H. lia.
Qed.

Lemma seg_app m a c l1 l2 :
  seg m a c (l1 ++ l2) <->
  seg m a (a + sum_sizes l1) l1 /\ seg m (a + sum_sizes l1) c l2.
Proof.
  revert a; induction l1 as [|w t IH]; simpl; intros a.
  - rewrite Z.add_0_r. intuition.
  - rewrite IH, Z.add_assoc. intuition.
Qed.

Lemma blocks_app a l1 l2 :
  blocks a (l1 ++ l2) = blocks a l1 ++ blocks (a + sum_sizes l1) l2.
Proof.
  revert a; induction l1 as [|w t IH]; simpl; intros a.
  - now rewrite Z.add_0_r.
  - now rewrite IH, Z.add_assoc.
Qed.

Lemma seg_blocks m a b ws y w :
  seg m a b ws -> In (y, w) (blocks a ws) ->
  a <= y /\ y + hsize w <= b /\ m y = w /\ valid_hdr w.
Proof.
  revert a; induction ws as [|w0 t IH]; simpl; intros a H Hin; [contradiction|].
  destruct H as (Hm & Hv & H). destruct Hin as [Heq | Hin].
  - inversion Heq; subst. apply seg_len in H.
    destruct Hv as (? & ? & ?). unfold valid_hdr. repeat split; auto; lia.
  - destruct (IH _ H Hin) as (? & ? & ? & ?).
    destruct Hv as (_ & ? & _). repeat (split; auto); lia.
Qed.

Lemma seg_frame m m' a b ws :
  seg m a b ws -> (forall y w, In (y, w) (blocks a ws) -> m' y = m y) ->
  seg m' a b ws.
Proof.
  revert a; induction ws as [|w t IH]; simpl; intros a H Hfr; [exact H|].
  destruct H as (Hm & Hv & H). rewrite (Hfr a w (or_introl eq_refl)).
  split; [exact Hm|]. split; [exact Hv|]. apply IH; [exact H|].
  intros y w' Hin. apply (Hfr y w'). right. exact Hin.
Qed.

Lemma seg_frame_range m m' a b ws :
  seg m a b ws -> (forall y, a <= y < b -> m' y = m y) -> seg m' a b ws.
Proof.
  intros H Hfr. apply (seg_frame m); auto.
  intros y w Hin. destruct (seg_blocks _ _ _ _ _ _ H Hin) as (? & ? & _ & (_ & ? & _)).
  apply Hfr. lia.
Qed.

(** A write that keeps the size of any header it hits keeps the tiling. *)
Lemma seg_upd_any m a b ws x v :
  seg m a b ws ->
  (forall w, In (x, w) (blocks a ws) -> valid_hdr v /\ hsize v = hsize w) ->
  exists ws', seg (upd m x v) a b ws'.
Proof.
  revert a; induction ws as [|w t IH]; simpl; intros a H Hx.
  - exists []. exact H.
  - destruct H as (Hm & Hv & H).
    destruct (IH (a + hsize w) H (fun w' Hin => Hx w' (or_intror Hin))) as [t' Ht'].
    destruct (Z.eqb_spec a x) as [<- | Hne].
    + destruct (Hx w (or_introl eq_refl)) as [Hvv Hsz].
      exists (v :: t'). simpl. unfold upd at 1. rewrite Z.eqb_refl, Hsz. auto.
    + exists (w :: t'). simpl. unfold upd at 1.
      destruct (Z.eqb_spec a x); [congruence|]. auto.
Qed.

Lemma in_blocks_split a ws y w :
  In (y, w) (blocks a ws) ->
  exists pre post, ws = pre ++ w :: post /\ y = a + sum_sizes pre.
Proof.
  revert a; induction ws as [|w0 t IH]; simpl; intros a Hin; [contradiction|].
  destruct Hin as [Heq | Hin].
  - inversion Heq; subst. exists [], t. simpl. split; [reflexivity | lia].
  - destruct (IH _ Hin) as (pre & post & -> & ->).
    exists (w0 :: pre), post. simpl. split; [reflexivity | lia].
Qed.

Lemma seg_cons_inv m a b w t :
  seg m a b (w :: t) -> m a = w /\ valid_hdr w /\ seg m (a + hsize w) b t.
Proof. exact (fun H => H). Qed.

Lemma wf_covers h ws :
  wf h ws -> covers h (heap_start h) (heap_start h + alloc_size h).
Proof.
  intros (_ & _ & Hr & _) y Hy. unfold mapped. rewrite Hr.
  apply andb_true_intro; split; apply Z.leb_le; lia.
Qed.

Lemma seg_first_end m a b ws :
  seg m a b ws -> m b = 1 -> m a = 1 -> ws = [] /\ a = b.
Proof.
  destruct ws as [|w t]; simpl; intros H Hb Ha; [auto|].
  destruct H as (Hm & Hv & _). apply valid_ne1 in Hv. congruence.
Qed.

(** ** Monad laws used by the proofs *)

Lemma load_ok h a : mapped h a = true -> load a h = Ok (mem h a) h.
Proof. unfold load. intros ->. reflexivity. Qed.

Lemma load_fault h a : mapped h a = false -> load a h = @Fault Z.
Proof. unfold load. intros ->. reflexivity. Qed.

Lemma store_ok h a v :
  mapped h a = true -> store a v h = Ok tt (with_mem h (upd (mem h) a v)).
Proof. unfold store. intros ->. reflexivity. Qed.

Lemma store_fault h a v : mapped h a = false -> store a v h = Fault.
Proof. unfold store. intros ->. reflexivity. Qed.

Lemma bind_Ok {A B} (m : M A) (k : A -> M B) h a h' :
  m h = Ok a h' -> bind m k h = k a h'.
Proof. unfold bind. intros ->. reflexivity. Qed.

Lemma mapped_with_mem h m a : mapped (with_mem h m) a = mapped h a.
Proof. reflexivity. Qed.

Lemma covers_with_mem h m a b : covers h a b -> covers (with_mem h m) a b.
Proof. auto. Qed.

(** ** The best-fit scan *)

Lemma scan_step bs f c best bsz h w :
  mapped h c = true -> mem h c = w -> w <> 1 ->
  (best <> NULL -> mapped h best = true /\ hsize (mem h best) = bsz) ->
  balloc_scan (S f) bs c best h =
  if (Z.land w 1 =? 0) && (bs <=? hsize w) then
    if (best =? NULL) || (hsize w <? bsz) then
      if hsize w =? bs then Ok c h
      else balloc_scan f bs (c + hsize w) c h
    else balloc_scan f bs (c + hsize w) best h
  else balloc_scan f bs (c + hsize w) best h.
Proof.
  intros Hcm Hm Hne Hb. cbn [balloc_scan].
  rewrite (bind_Ok _ _ _ _ _ (load_ok _ _ Hcm)), Hm.
  rewrite (proj2 (Z.eqb_neq w 1) Hne), shift_hsize, Z.geb_leb.
  destruct ((Z.land w 1 =? 0) && (bs <=? hsize w)); [|reflexivity].
  destruct (Z.eqb_spec best NULL) as [-> | Hn].
  - destruct (hsize w =? bs); reflexivity.
  - destruct (Hb Hn) as [Hbm Hbs]. unfold bind at 1.
    rewrite (bind_Ok _ _ _ _ _ (load_ok _ _ Hbm)). unfold ret at 1.
    rewrite shift_hsize, Hbs.
    destruct (hsize w <? bsz); [|reflexivity]. destruct (hsize w =? bs); reflexivity.
Qed.

Lemma scan_spec bs e ws : forall fuel c best bsz h,
  seg (mem h) c e ws -> mem h e = 1 -> covers h c e ->
  (best <> NULL -> mapped h best = true /\ hsize (mem h best) = bsz) ->
  balloc_scan fuel bs c best h = Ok (pick bs c ws best bsz) h \/
  (balloc_scan fuel bs c best h = OutOfFuel /\ (fuel < length ws)%nat).
Proof.
  induction ws as [|w t IH]; intros fuel c best bsz h Hs He Hc Hb.
  - simpl in Hs. subst c. left. destruct fuel; simpl;
      (rewrite (bind_Ok _ _ _ _ _ (load_ok _ _ (Hc e ltac:(lia)))); rewrite He; reflexivity).
  - destruct Hs as (Hm & Hv & Hs).
    pose proof (seg_len _ _ _ _ Hs) as Hlen.
    pose proof Hv as (Hw0 & Hw8 & Hw80).
    assert (Hcm : mapped h c = true) by (apply Hc; lia).
    assert (Hc' : covers h (c + hsize w) e) by (intros y Hy; apply Hc; lia).
    assert (Hcb : c <> NULL -> mapped h c = true /\ hsize (mem h c) = hsize w)
      by (rewrite Hm; auto).
    destruct fuel as [|f].
    + right. simpl. rewrite (bind_Ok _ _ _ _ _ (load_ok _ _ Hcm)), Hm.
      rewrite (proj2 (Z.eqb_neq w 1) (valid_ne1 _ Hv)).
      split; [reflexivity | simpl; lia].
    + rewrite (scan_step bs f c best bsz h w Hcm Hm (valid_ne1 _ Hv) Hb). cbn [pick].
      destruct ((Z.land w 1 =? 0) && (bs <=? hsize w)).
      * destruct ((best =? NULL) || (hsize w <? bsz)).
        -- destruct (hsize w =? bs); [left; reflexivity|].
           destruct (IH f (c + hsize w) c (hsize w) h Hs He Hc' Hcb) as [E | [E L]];
             [left; exact E | right; split; [exact E | simpl; lia]].
        -- destruct (IH f (c + hsize w) best bsz h Hs He Hc' Hb) as [E | [E L]];
             [left; exact E | right; split; [exact E | simpl; lia]].
      * destruct (IH f (c + hsize w) best bsz h Hs He Hc' Hb) as [E | [E L]];
          [left; exact E | right; split; [exact E | simpl; lia]].
Qed.

Lemma eligible_b bs w :
  (Z.land w 1 =? 0) && (bs <=? hsize w) = true <-> eligible bs w.
Proof.
  unfold eligible, is_free. rewrite andb_true_iff, Z.eqb_eq, Z.leb_le. tauto.
Qed.

Lemma pick_cases bs ws : forall c best bsz,
  pick bs c ws best bsz = best \/
  exists y w, In (y, w) (blocks c ws) /\ eligible bs w /\ pick bs c ws best bsz = y.
Proof.
  induction ws as [|w t IH]; intros c best bsz; simpl; [left; reflexivity|].
  destruct ((Z.land w 1 =? 0) && (bs <=? hsize w)) eqn:Hel; simpl.
  - apply eligible_b in Hel.
    destruct ((best =? NULL) || (hsize w <? bsz)).
    + destruct (hsize w =? bs).
      * right. exists c, w. auto.
      * destruct (IH (c + hsize w) c (hsize w)) as [-> | (y & w' & ? & ? & ->)].
        -- right. exists c, w. auto.
        -- right. exists y, w'. auto.
    + destruct (IH (c + hsize w) best bsz) as [-> | (y & w' & ? & ? & ->)];
        [left; reflexivity | right; exists y, w'; auto].
  - destruct (IH (c + hsize w) best bsz) as [-> | (y & w' & ? & ? & ->)];
      [left; reflexivity | right; exists y, w'; auto].
Qed.

Lemma pick_best bs ws : forall c pre best bsz,
  scan_acc bs pre best bsz ->
  (exists y w, In (y, w) (pre ++ blocks c ws) /\ eligible bs w) ->
  (forall y w, In (y, w) (blocks c ws) -> y <> NULL) ->
  best_fit bs (pre ++ blocks c ws) (pick bs c ws best bsz).
Proof.
  induction ws as [|w t IH]; intros c pre best bsz Hacc Hex Hnn; simpl.
  - rewrite app_nil_r in *.
    destruct Hacc as [[-> Hno] | [Hn (p & w0 & q & -> & Hel & Hsz & Hall & Hp)]].
    + destruct Hex as (y & w & Hin & Hel). exfalso. eapply Hno; eauto.
    + exists p, w0, q. subst bsz. split; [reflexivity|]. split; [exact Hel|]. auto.
  - assert (Hc : c <> NULL) by (apply (Hnn c w); left; reflexivity).
    assert (Hnn' : forall y w', In (y, w') (blocks (c + hsize w) t) -> y <> NULL)
      by (intros y w' Hin; apply (Hnn y w'); right; exact Hin).
    assert (Hre : pre ++ (c, w) :: blocks (c + hsize w) t
                  = (pre ++ [(c, w)]) ++ blocks (c + hsize w) t)
      by (rewrite <- app_assoc; reflexivity).
    assert (Hin_pre : forall y w', In (y, w') (pre ++ [(c, w)]) ->
                      In (y, w') pre \/ (y, w') = (c, w))
      by (intros y w' Hin; apply in_app_iff in Hin; simpl in Hin; intuition).
    destruct ((Z.land w 1 =? 0) && (bs <=? hsize w)) eqn:Hel; simpl.
    + apply eligible_b in Hel.
      (* every eligible block already passed is strictly larger than [w]
         when [w] is taken *)
      destruct ((best =? NULL) || (hsize w <? bsz)) eqn:Hbt.
      * assert (Hstrict : forall y w', In (y, w') pre -> eligible bs w' -> hsize w < hsize w').
        { intros y w' Hin Hel'.
          destruct Hacc as [[-> Hno] | [Hn (p & w0 & q & -> & _ & _ & Hall & _)]].
          - exfalso. eapply Hno; eauto.
          - apply orb_true_iff in Hbt. destruct Hbt as [Hb | Hb].
            + apply Z.eqb_eq in Hb. contradiction.
            + apply Z.ltb_lt in Hb. specialize (Hall y w' Hin Hel'). lia. }
        destruct (Z.eqb_spec (hsize w) bs) as [Heq | Hneq].
        -- exists pre, w, (blocks (c + hsize w) t).
           split; [reflexivity|]. split; [exact Hel|]. split; [|exact Hstrict].
           intros y w' _ (_ & Hle). lia.
        -- rewrite Hre. apply IH; auto.
           ++ right. split; [exact Hc|]. exists pre, w, [].
              split; [reflexivity|]. split; [exact Hel|]. split; [reflexivity|].
              split; [|exact Hstrict].
              intros y w' Hin Hel'. destruct (Hin_pre _ _ Hin) as [Hin' | Heq'].
              ** specialize (Hstrict y w' Hin' Hel'). lia.
              ** inversion Heq'. lia.
           ++ rewrite <- Hre. exact Hex.
      * rewrite Hre. apply IH; auto.
        -- destruct Hacc as [[-> Hno] | [Hn (p & w0 & q & -> & Hel0 & Hsz & Hall & Hp)]].
           ++ simpl in Hbt. discriminate.
           ++ right. split; [exact Hn|]. exists p, w0, (q ++ [(c, w)]).
              rewrite <- app_assoc. split; [reflexivity|]. split; [exact Hel0|].
              split; [exact Hsz|]. split; [|exact Hp].
              intros y w' Hin Hel'. rewrite app_assoc in Hin.
              destruct (Hin_pre _ _ Hin) as [Hin' | Heq'].
              ** apply (Hall y w' Hin' Hel').
              ** inversion Heq'; subst. apply orb_false_iff in Hbt.
                 destruct Hbt as [_ Hb]. apply Z.ltb_ge in Hb. lia.
        -- rewrite <- Hre. exact Hex.
    + assert (Hnel : ~ eligible bs w)
        by (intros Hw; apply eligible_b in Hw; congruence).
      rewrite Hre. apply IH; auto.
      * destruct Hacc as [[-> Hno] | [Hn (p & w0 & q & -> & Hel0 & Hsz & Hall & Hp)]].
        -- left. split; [reflexivity|]. intros y w' Hin.
           destruct (Hin_pre _ _ Hin) as [Hin' | Heq']; [apply (Hno y w' Hin')|].
           inversion Heq'; subst. exact Hnel.
        -- right. split; [exact Hn|]. exists p, w0, (q ++ [(c, w)]).
           rewrite <- app_assoc. split; [reflexivity|]. split; [exact Hel0|].
           split; [exact Hsz|]. split; [|exact Hp].
           intros y w' Hin Hel'. rewrite app_assoc in Hin.
           destruct (Hin_pre _ _ Hin) as [Hin' | Heq'].
           ++ apply (Hall y w' Hin' Hel').
           ++ inversion Heq'; subst. contradiction.
      * rewrite <- Hre. exact Hex.
Qed.

(** ** Integer conversions *)

Lemma to_int_small x : - 2 ^ 31 <= x <= INT_MAX -> to_int x = x.
Proof.
  unfold to_int, INT_MAX. intros. rewrite Z.mod_small by lia. lia.
Qed.

Lemma to_int_high x : INT_MAX < x <= 2 ^ 32 + INT_MAX -> to_int x = x - 2 ^ 32.
Proof.
  unfold to_int, INT_MAX. intros.
  rewrite <- (Z.mod_unique (x + 2 ^ 31) (2 ^ 32) 1 (x + 2 ^ 31 - 2 ^ 32)) by lia. lia.
Qed.

Lemma to_ulong_small x : 0 <= x < 2 ^ 64 -> to_ulong x = x.
Proof. unfold to_ulong. intros. apply Z.mod_small. lia. Qed.

Lemma to_ulong_neg x : - 2 ^ 64 <= x < 0 -> to_ulong x = x + 2 ^ 64.
Proof.
  unfold to_ulong. intros.
  rewrite <- (Z.mod_unique x (2 ^ 64) (-1) (x + 2 ^ 64)) by lia. reflexivity.
Qed.

Lemma round_up8_mult k : round_up8 k mod 8 = 0.
Proof. unfold round_up8. rewrite Z.mul_comm, Z.mod_mul by lia. reflexivity. Qed.

Lemma round_up8_bounds k : k <= round_up8 k < k + 8.
Proof.
  unfold round_up8. pose proof (Z.div_mod (k + 7) 8). pose proof (Z.mod_pos_bound (k + 7) 8).
  lia.
Qed.

Lemma blockSize_of_spec n :
  1 <= n <= INT_MAX ->
  let r := round_up8 (n + 4) in
  (r <= INT_MAX /\ blockSize_of n = r) \/
  (INT_MAX < r <= 2 ^ 31 + 8 /\ blockSize_of n = r - 2 ^ 32).
Proof.
  intros Hn r. pose proof (round_up8_bounds (n + 4)) as Hb. fold r in Hb.
  unfold blockSize_of, sizeof_blockHeader.
  rewrite (to_ulong_small n) by (unfold INT_MAX in Hn; lia).
  rewrite (to_ulong_small (n + 4 + 7)) by (unfold INT_MAX in Hn; lia).
  assert (E : (n + 4 + 7) / 8 * 8 = r) by (unfold r, round_up8; lia).
  rewrite E, (to_ulong_small r) by (unfold INT_MAX in Hn; lia).
  destruct (Z_le_gt_dec r INT_MAX) as [Hle | Hgt].
  - left. split; [exact Hle|]. apply to_int_small. lia.
  - right. unfold INT_MAX in *. split; [lia|]. apply to_int_high. unfold INT_MAX. lia.
Qed.

(** ** Header updates *)

Lemma valid_lor1 w : valid_hdr w -> valid_hdr (Z.lor w 1).
Proof.
  intros (H0 & H8 & Hm). rewrite <- hsize_lor1 in H8, Hm.
  split; [apply Z.lor_nonneg; lia | auto].
Qed.

Lemma valid_lor2 w : valid_hdr w -> valid_hdr (Z.lor w 2).
Proof.
  intros (H0 & H8 & Hm). rewrite <- hsize_lor2 in H8, Hm.
  split; [apply Z.lor_nonneg; lia | auto].
Qed.

Lemma valid_clear1 w : valid_hdr w -> valid_hdr (Z.land w (Z.lnot 1)).
Proof.
  intros (H0 & H8 & Hm). rewrite <- hsize_clear1 in H8, Hm.
  split; [apply Z.land_nonneg; lia | auto].
Qed.

Lemma valid_clear2 w : valid_hdr w -> valid_hdr (Z.land w (Z.lnot 2)).
Proof.
  intros (H0 & H8 & Hm). rewrite <- hsize_clear2 in H8, Hm.
  split; [apply Z.land_nonneg; lia | auto].
Qed.

Lemma upd_eq m a v : upd m a v a = v.
Proof. unfold upd. now rewrite Z.eqb_refl. Qed.

Lemma upd_ne m a v x : x <> a -> upd m a v x = m x.
Proof. unfold upd. intros H. destruct (Z.eqb_spec x a); congruence. Qed.

Lemma upd_same m a : upd m a (m a) = m.
Proof.
  apply functional_extensionality. intros x. unfold upd.
  destruct (Z.eqb_spec x a); congruence.
Qed.

Lemma with_mem_id h : with_mem h (mem h) = h.
Proof. destruct h; reflexivity. Qed.

Lemma wf_upd_bits h ws x v :
  wf h ws ->
  (forall w, In (x, w) (blocks (heap_start h) ws) -> valid_hdr v /\ hsize v = hsize w) ->
  x <> heap_start h + alloc_size h ->
  exists ws', wf (with_mem h (upd (mem h) x v)) ws'.
Proof.
  intros (H1 & H2 & H3 & H4 & H5 & H6 & H7) Hx Hne.
  destruct (seg_upd_any _ _ _ _ x v H6 Hx) as [ws' Hs].
  exists ws'. unfold wf; cbn [heap_start alloc_size allocated_once region mem with_mem].
  repeat split; auto. rewrite upd_ne by (intros E; apply Hne; symmetry; exact E). exact H7.
Qed.

(** A header found in the decoded list can have its status bits changed. *)
Lemma hdr_bits_ok m a b ws x f :
  seg m a b ws ->
  (forall w, valid_hdr w -> valid_hdr (f w) /\ hsize (f w) = hsize w) ->
  forall w, In (x, w) (blocks a ws) -> valid_hdr (f (m x)) /\ hsize (f (m x)) = hsize w.
Proof.
  intros Hs Hf w Hin. destruct (seg_blocks _ _ _ _ _ _ Hs Hin) as (_ & _ & -> & Hv).
  apply Hf. exact Hv.
Qed.

(** ** Placement in the chosen block *)

Lemma balloc_place fuel n h ws pre w post :
  wf h ws -> ws = pre ++ w :: post -> 1 <= n ->
  8 <= blockSize_of n -> blockSize_of n mod 8 = 0 ->
  eligible (blockSize_of n) w ->
  balloc_scan fuel (blockSize_of n) (heap_start h) NULL h
    = Ok (heap_start h + sum_sizes pre) h ->
  exists h' ws',
    balloc fuel n h = Ok (heap_start h + sum_sizes pre + sizeof_blockHeader) h' /\
    wf h' ws' /\ h' = with_mem h (mem h') /\
    let r := heap_start h + sum_sizes pre in
    Z.land (mem h' r) 1 = 1 /\ blockSize_of n <= hsize (mem h' r) <= hsize w /\
    (forall y, y < r \/ r + hsize w < y -> mem h' y = mem h y).
Proof.
  intros Hwf Hws Hn Hbs8 Hbsm Hel Hscan. cbv zeta.
  pose proof Hwf as (H1 & H2 & H3 & H4 & H5 & H6 & H7).
  pose proof (wf_covers _ _ Hwf) as Hcov.
  set (bs := blockSize_of n) in *.
  set (hs := heap_start h) in *. set (e := hs + alloc_size h) in *.
  set (r := hs + sum_sizes pre) in *. set (m := mem h) in *.
  rewrite Hws in H6. apply seg_app in H6. destruct H6 as [Hpre Hrest].
  fold r in Hpre, Hrest. destruct Hrest as (Hm & Hv & Hpost).
  pose proof Hv as (Hw0 & Hw8 & Hw80).
  pose proof (seg_len _ _ _ _ Hpre) as Lpre. pose proof (seg_len _ _ _ _ Hpost) as Lpost.
  destruct Hel as (Hfree & Hle).
  set (S := hsize w) in *.
  assert (He : e = hs + alloc_size h) by reflexivity.
  assert (Hrm : mapped h r = true) by (apply Hcov; lia').
  assert (Hrbm : mapped h (r + bs) = true) by (apply Hcov; lia').
  assert (HrSm : mapped h (r + S) = true) by (apply Hcov; lia').
  assert (Hrn : (r =? NULL) = false) by (apply Z.eqb_neq; unfold NULL; lia').
  unfold balloc. replace (n <? 1) with false by (symmetry; apply Z.ltb_ge; lia').
  cbv zeta. fold bs.
  rewrite (bind_Ok get_heap_start _ h hs h eq_refl).
  rewrite (bind_Ok _ _ _ _ _ Hscan). cbv beta. rewrite Hrn.
  rewrite (bind_Ok _ _ _ _ _ (load_ok _ _ Hrm)). fold m. rewrite Hm. cbv beta.
  rewrite shift_hsize. fold S.
  rewrite (to_int_small (S - bs)) by (unfold INT_MAX in *; lia').
  rewrite (to_ulong_small (S - bs)) by lia'.
  change (to_ulong (sizeof_blockHeader * 2 + 8)) with 16.
  destruct (Z.leb_spec 16 (S - bs)) as [Hsplit | Hnosplit].
  - (* split *)
    rewrite (proj2 (Z.geb_le (S - bs) 16) Hsplit).
    set (w1 := Z.lor (Z.lor bs (Z.land w 3)) 1).
    set (w2 := Z.lor (S - bs) 2).
    rewrite (bind_Ok _ _ _ _ _ (store_ok _ _ w1 Hrm)). cbv beta. fold m.
    rewrite (bind_Ok _ _ _ _ _ (store_ok (with_mem h (upd m r w1)) _ w2 Hrbm)). cbv beta.
    cbn [with_mem mem].
    replace (r + bs + (S - bs)) with (r + S) by lia'.
    set (m2 := upd (upd m r w1) (r + bs) w2).
    assert (Hm2S : m2 (r + S) = m (r + S))
      by (unfold m2; rewrite !upd_ne by lia'; reflexivity).
    assert (Hseg2 : seg m2 hs e (pre ++ w1 :: w2 :: post)).
    { apply seg_app. fold r. split.
      - apply (seg_frame_range m); [exact Hpre|]. intros y Hy.
        unfold m2. rewrite !upd_ne by lia'. reflexivity.
      - assert (Hs1 : hsize w1 = bs)
          by (unfold w1; rewrite hsize_split_hdr; apply hsize_of_mult4; liam).
        assert (Hs2 : hsize w2 = S - bs)
          by (unfold w2; rewrite hsize_lor2; apply hsize_of_mult4; liam).
        simpl. split; [unfold m2; rewrite upd_ne, upd_eq by lia'; reflexivity|].
        split; [split; [unfold w1; apply Z.lor_nonneg; split; [apply Z.lor_nonneg|]; try lia';
                        split; [lia' | apply Z.land_nonneg; lia'] | rewrite Hs1; lia']|].
        rewrite Hs1. split; [unfold m2; rewrite upd_eq; reflexivity|].
        split; [split; [unfold w2; apply Z.lor_nonneg; lia' | rewrite Hs2;
                        split; [lia' | liam]]|].
        rewrite Hs2. replace (r + bs + (S - bs)) with (r + S) by lia'.
        apply (seg_frame_range m); [exact Hpost|]. intros y Hy.
        unfold m2. rewrite !upd_ne by lia'. reflexivity. }
    assert (Hs1 : hsize w1 = bs)
      by (unfold w1; rewrite hsize_split_hdr; apply hsize_of_mult4; liam).
    assert (Hm2r : m2 r = w1) by (unfold m2; rewrite upd_ne, upd_eq by lia'; reflexivity).
    assert (Hfr2 : forall y, y < r \/ r + S < y -> m2 y = m y)
      by (intros y Hy; unfold m2; rewrite !upd_ne by lia'; reflexivity).
    assert (Hwf2 : wf (with_mem h m2) (pre ++ w1 :: w2 :: post)).
    { unfold wf; cbn [heap_start alloc_size allocated_once region mem with_mem].
      repeat split; auto. change (heap_start h + alloc_size h) with e.
      unfold m2. rewrite !upd_ne by lia'. exact H7. }
    rewrite (bind_Ok _ _ _ _ _ (load_ok (with_mem h m2) (r + S) HrSm)).
    cbn [mem with_mem]. rewrite Hm2S.
    destruct (Z.eqb_spec (m (r + S)) 1) as [Heq1 | Hne1]; cbn [negb].
    + exists (with_mem h m2), (pre ++ w1 :: w2 :: post).
      split; [reflexivity | split; [exact Hwf2 | split; [reflexivity|]]].
      cbn [mem with_mem]. rewrite Hm2r, Hs1.
      split; [apply par_split_hdr | split; [lia' | exact Hfr2]].
    + rewrite (bind_Ok _ _ _ _ _ (store_ok (with_mem h m2) _ (Z.lor (m (r + S)) 2) HrSm)).
      cbn [mem with_mem].
      destruct (wf_upd_bits (with_mem h m2) _ (r + S) (Z.lor (m (r + S)) 2) Hwf2)
        as [ws' Hwf3].
      * cbn [heap_start with_mem mem]. rewrite <- Hm2S.
        apply (hdr_bits_ok _ _ _ _ _ (fun x => Z.lor x 2) Hseg2).
        intros x Hx. split; [apply valid_lor2, Hx | apply hsize_lor2].
      * cbn [heap_start alloc_size with_mem]. intros E. apply Hne1.
        change (heap_start h + alloc_size h) with e in E. rewrite E. exact H7.
      * exists (with_mem (with_mem h m2) (upd m2 (r + S) (Z.lor (m (r + S)) 2))), ws'.
        split; [reflexivity | split; [exact Hwf3 | split; [reflexivity|]]].
        cbn [mem with_mem]. rewrite (upd_ne _ _ _ r) by lia'. rewrite Hm2r, Hs1.
        split; [apply par_split_hdr | split; [lia'|]].
        intros y Hy. rewrite upd_ne by lia'. apply Hfr2, Hy.
  - (* the whole block *)
    rewrite Z.geb_leb, (proj2 (Z.leb_gt 16 (S - bs)) Hnosplit).
    rewrite (bind_Ok _ _ _ _ _ (store_ok _ _ (Z.lor w 1) Hrm)). cbv beta. fold m.
    set (m1 := upd m r (Z.lor w 1)).
    rewrite (bind_Ok _ _ _ _ _ (load_ok (with_mem h m1) r Hrm)). cbv beta.
    assert (Hm1r : Z.shiftl (Z.shiftr (m1 r) 2) 2 = S)
      by (unfold m1; rewrite upd_eq, shift_hsize, hsize_lor1; reflexivity).
    cbn [mem with_mem]. rewrite !Hm1r.
    assert (Hm1S : m1 (r + S) = m (r + S))
      by (unfold m1; rewrite upd_ne by lia'; reflexivity).
    assert (Hseg1 : seg m1 hs e (pre ++ Z.lor w 1 :: post)).
    { apply seg_app. fold r. split.
      - apply (seg_frame_range m); [exact Hpre|]. intros y Hy.
        unfold m1. rewrite upd_ne by lia'. reflexivity.
      - simpl. split; [unfold m1; apply upd_eq|]. split; [apply valid_lor1, Hv|].
        rewrite hsize_lor1. fold S. apply (seg_frame_range m); [exact Hpost|]. intros y Hy.
        unfold m1. rewrite upd_ne by lia'. reflexivity. }
    assert (Hm1r' : m1 r = Z.lor w 1) by apply upd_eq.
    assert (Hfr1 : forall y, y < r \/ r + S < y -> m1 y = m y)
      by (intros y Hy; unfold m1; rewrite upd_ne by lia'; reflexivity).
    assert (Hwf1 : wf (with_mem h m1) (pre ++ Z.lor w 1 :: post)).
    { unfold wf; cbn [heap_start alloc_size allocated_once region mem with_mem].
      repeat split; auto. change (heap_start h + alloc_size h) with e.
      unfold m1. rewrite upd_ne by lia'. exact H7. }
    rewrite (bind_Ok _ _ _ _ _ (load_ok (with_mem h m1) (r + S) HrSm)).
    cbn [mem with_mem]. rewrite Hm1S.
    destruct (Z.eqb_spec (m (r + S)) 1) as [Heq1 | Hne1]; cbn [negb].
    + exists (with_mem h m1), (pre ++ Z.lor w 1 :: post).
      split; [reflexivity | split; [exact Hwf1 | split; [reflexivity|]]].
      cbn [mem with_mem]. rewrite Hm1r', hsize_lor1. fold S.
      split; [apply par_lor1 | split; [lia' | exact Hfr1]].
    + rewrite (bind_Ok _ _ _ _ _ (store_ok (with_mem h m1) _ (Z.lor (m (r + S)) 2) HrSm)).
      cbn [mem with_mem].
      destruct (wf_upd_bits (with_mem h m1) _ (r + S) (Z.lor (m (r + S)) 2) Hwf1)
        as [ws' Hwf3].
      * cbn [heap_start with_mem mem]. rewrite <- Hm1S.
        apply (hdr_bits_ok _ _ _ _ _ (fun x => Z.lor x 2) Hseg1).
        intros x Hx. split; [apply valid_lor2, Hx | apply hsize_lor2].
      * cbn [heap_start alloc_size with_mem]. intros E. apply Hne1.
        change (heap_start h + alloc_size h) with e in E. rewrite E. exact H7.
      * exists (with_mem (with_mem h m1) (upd m1 (r + S) (Z.lor (m (r + S)) 2))), ws'.
        split; [reflexivity | split; [exact Hwf3 | split; [reflexivity|]]].
        cbn [mem with_mem]. rewrite (upd_ne _ _ _ r) by lia'. rewrite Hm1r', hsize_lor1. fold S.
        split; [apply par_lor1 | split; [lia'|]].
        intros y Hy. rewrite upd_ne by lia'. apply Hfr1, Hy.
Qed.

Lemma bind_OutOfFuel {A B} (m : M A) (k : A -> M B) h :
  m h = OutOfFuel -> bind m k h = OutOfFuel.
Proof. unfold bind. intros ->. reflexivity. Qed.

Lemma bind_Fault {A B} (m : M A) (k : A -> M B) h :
  m h = Fault -> bind m k h = Fault.
Proof. unfold bind. intros ->. reflexivity. Qed.

(** A request whose rounded size exceeds [INT_MAX] makes [blockSize]
    negative: the split writes a header below the region. *)
Lemma balloc_overflow fuel n h ws pre w post :
  wf h ws -> ws = pre ++ w :: post -> 1 <= n <= INT_MAX ->
  INT_MAX < round_up8 (n + 4) -> is_free w ->
  balloc_scan fuel (blockSize_of n) (heap_start h) NULL h
    = Ok (heap_start h + sum_sizes pre) h ->
  balloc fuel n h = Fault.
Proof.
  intros Hwf Hws Hn Hov Hfree Hscan.
  pose proof Hwf as (H1 & H2 & H3 & H4 & H5 & H6 & H7).
  pose proof (wf_covers _ _ Hwf) as Hcov.
  destruct (blockSize_of_spec n Hn) as [[Hle _] | [Hr Hbs]]; [lia|].
  set (bs := blockSize_of n) in *.
  set (hs := heap_start h) in *. set (e := hs + alloc_size h) in *.
  set (r := hs + sum_sizes pre) in *. set (m := mem h) in *.
  rewrite Hws in H6. apply seg_app in H6. destruct H6 as [Hpre Hrest].
  fold r in Hpre, Hrest. destruct Hrest as (Hm & Hv & Hpost).
  pose proof Hv as (Hw0 & Hw8 & Hw80).
  pose proof (seg_len _ _ _ _ Hpre) as Lpre. pose proof (seg_len _ _ _ _ Hpost) as Lpost.
  set (S := hsize w) in *.
  assert (He : e = hs + alloc_size h) by reflexivity.
  assert (Hrm : mapped h r = true) by (apply Hcov; lia').
  assert (Hrn : (r =? NULL) = false) by (apply Z.eqb_neq; unfold NULL; lia').
  unfold balloc. replace (n <? 1) with false by (symmetry; apply Z.ltb_ge; lia').
  cbv zeta. fold bs.
  rewrite (bind_Ok get_heap_start _ h hs h eq_refl).
  rewrite (bind_Ok _ _ _ _ _ Hscan). cbv beta. rewrite Hrn.
  rewrite (bind_Ok _ _ _ _ _ (load_ok _ _ Hrm)). fold m. rewrite Hm. cbv beta.
  rewrite shift_hsize. fold S.
  rewrite (to_int_high (S - bs)) by lia'.
  rewrite (to_ulong_neg (S - bs - 2 ^ 32)) by lia'.
  change (to_ulong (sizeof_blockHeader * 2 + 8)) with 16.
  rewrite (proj2 (Z.geb_le _ 16)) by lia'.
  rewrite (bind_Ok _ _ _ _ _ (store_ok _ _ _ Hrm)). cbv beta.
  unfold bind at 1. rewrite store_fault; [reflexivity|].
  unfold mapped. cbn [region with_mem]. rewrite H3.
  apply andb_false_intro1. apply Z.leb_gt. lia'.
Qed.

Lemma blockSize_ge8 n : 1 <= n -> 8 <= round_up8 (n + 4).
Proof.
  intros Hn. pose proof (round_up8_bounds (n + 4)). pose proof (round_up8_mult (n + 4)).
  Z.div_mod_to_equations. lia.
Qed.

(** [balloc] keeps the heap well formed. *)
Lemma balloc_wf fuel n h ws r h' :
  wf h ws -> n <= INT_MAX -> balloc fuel n h = Ok r h' -> exists ws', wf h' ws'.
Proof.
  intros Hwf Hn Hb.
  destruct (Z.ltb_spec n 1) as [Hlt | Hge].
  - unfold balloc in Hb. rewrite (proj2 (Z.ltb_lt n 1) Hlt) in Hb.
    injection Hb as _ <-. exists ws. exact Hwf.
  - pose proof Hwf as (H1 & H2 & H3 & H4 & H5 & H6 & H7).
    assert (Hnn : NULL <> NULL -> mapped h NULL = true /\ hsize (mem h NULL) = 0)
      by (intros []; reflexivity).
    unfold balloc in Hb. rewrite (proj2 (Z.ltb_ge n 1) Hge) in Hb. cbv zeta in Hb.
    rewrite (bind_Ok get_heap_start _ h _ h eq_refl) in Hb.
    destruct (scan_spec (blockSize_of n) _ ws fuel (heap_start h) NULL 0 h H6 H7
                (wf_covers _ _ Hwf) Hnn) as [Hs | [Hs _]].
    + destruct (pick_cases (blockSize_of n) ws (heap_start h) NULL 0)
        as [Hp | (y & w & Hin & Hel & Hp)]; rewrite Hp in Hs.
      * rewrite (bind_Ok _ _ _ _ _ Hs) in Hb. cbv beta in Hb. rewrite Z.eqb_refl in Hb.
        injection Hb as _ <-. exists ws. exact Hwf.
      * destruct (in_blocks_split _ _ _ _ Hin) as (pre & post & Hws & Hy). rewrite Hy in Hs.
        destruct (blockSize_of_spec n (conj Hge Hn)) as [[Hle Hbs] | [Hov _]].
        -- assert (Hb8 : 8 <= blockSize_of n)
             by (rewrite Hbs; apply blockSize_ge8; exact Hge).
           assert (Hbm : blockSize_of n mod 8 = 0)
             by (rewrite Hbs; apply round_up8_mult).
           destruct (balloc_place fuel n h ws pre w post Hwf Hws Hge Hb8 Hbm Hel Hs)
             as (h2 & ws2 & Hb2 & Hwf2 & _).
           unfold balloc in Hb2. rewrite (proj2 (Z.ltb_ge n 1) Hge) in Hb2.
           cbv zeta in Hb2. rewrite (bind_Ok get_heap_start _ h _ h eq_refl) in Hb2.
           rewrite Hb2 in Hb. injection Hb as _ <-. exists ws2. exact Hwf2.
        -- pose proof (balloc_overflow fuel n h ws pre w post Hwf Hws (conj Hge Hn) (proj1 Hov)
                         (proj1 Hel) Hs) as Hf.
           unfold balloc in Hf. rewrite (proj2 (Z.ltb_ge n 1) Hge) in Hf.
           cbv zeta in Hf. rewrite (bind_Ok get_heap_start _ h _ h eq_refl) in Hf.
           rewrite Hf in Hb. discriminate.
    + rewrite (bind_OutOfFuel _ _ _ Hs) in Hb. discriminate.
Qed.

(** C1: on an initialized heap, for a request [1 <= n <= INT_MAX] that some
    free block can hold, [balloc] returns the payload of the best-fit block
    for the size [round_up8 (n + 4)]: the smallest eligible block, the first
    one in address order among those of that size. *)
Theorem balloc_best_fit fuel n h ws :
  wf h ws -> 1 <= n <= INT_MAX -> (length ws <= fuel)%nat ->
  (exists y w, In (y, w) (blocks (heap_start h) ws) /\ eligible (round_up8 (n + 4)) w) ->
  exists r h', best_fit (round_up8 (n + 4)) (blocks (heap_start h) ws) r /\
               balloc fuel n h = Ok (r + sizeof_blockHeader) h'.
Proof.
  intros Hwf Hn Hfuel Hex.
  pose proof Hwf as (H1 & H2 & H3 & H4 & H5 & H6 & H7).
  pose proof Hex as (y0 & w0 & Hin0 & Hel0).
  destruct (seg_blocks _ _ _ _ _ _ H6 Hin0) as (Hy0 & Hy0e & _ & _).
  destruct Hel0 as (_ & Hle0).
  destruct (blockSize_of_spec n Hn) as [[_ Hbs] | [Hov _]]; [|lia'].
  assert (Hnn : NULL <> NULL -> mapped h NULL = true /\ hsize (mem h NULL) = 0)
    by (intros []; reflexivity).
  destruct (scan_spec (blockSize_of n) _ ws fuel (heap_start h) NULL 0 h H6 H7
              (wf_covers _ _ Hwf) Hnn) as [Hs | [_ Hlt]]; [|lia].
  assert (Hbf : best_fit (round_up8 (n + 4)) (blocks (heap_start h) ws)
                  (pick (round_up8 (n + 4)) (heap_start h) ws NULL 0)).
  { apply (pick_best _ ws (heap_start h) [] NULL 0).
    - left. split; [reflexivity | intros ? ? []].
    - exact Hex.
    - intros y w Hin. destruct (seg_blocks _ _ _ _ _ _ H6 Hin) as (? & _).
      unfold NULL. lia. }
  rewrite <- Hbs in Hbf.
  set (p := pick (blockSize_of n) (heap_start h) ws NULL 0) in *.
  pose proof Hbf as (pre' & w & post' & Heq & Hel & _).
  assert (Hin : In (p, w) (blocks (heap_start h) ws))
    by (rewrite Heq; apply in_or_app; right; left; reflexivity).
  destruct (in_blocks_split _ _ _ _ Hin) as (pre & post & Hws & Hp).
  rewrite Hp in Hs.
  assert (Hb8 : 8 <= blockSize_of n) by (rewrite Hbs; apply blockSize_ge8; lia).
  assert (Hbm : blockSize_of n mod 8 = 0) by (rewrite Hbs; apply round_up8_mult).
  destruct (balloc_place fuel n h ws pre w post Hwf Hws (proj1 Hn) Hb8 Hbm Hel Hs)
    as (h2 & ws2 & Hb2 & _).
  exists p, h2. split; [rewrite <- Hbs; exact Hbf|]. rewrite Hb2, Hp. reflexivity.
Qed.

(** ** coalesce *)

Lemma upd_upd m a v v' : upd (upd m a v) a v' = upd m a v'.
Proof.
  apply functional_extensionality. intros x. unfold upd. destruct (Z.eqb x a); reflexivity.
Qed.

Lemma with_mem_with_mem h m m' : with_mem (with_mem h m) m' = with_mem h m'.
Proof. reflexivity. Qed.

Lemma valid_mod4 w : valid_hdr w -> hsize w mod 4 = 0.
Proof. intros (_ & _ & H). Z.div_mod_to_equations. lia. Qed.

(** The inner loop absorbs the maximal run of free blocks after [c] and
    writes the sum of the sizes into the header at [c]. *)
Lemma coalesce_merge_spec e t : forall fuel h c w nb h',
  seg (mem h) c e (w :: t) -> mem h e = 1 -> covers h c e ->
  e - c + 3 <= INT_MAX ->
  coalesce_merge fuel c (c + hsize w) h = Ok nb h' ->
  exists run rest,
    t = run ++ rest /\ Forall is_free run /\
    (rest = [] \/ exists w2 t2, rest = w2 :: t2 /\ ~ is_free w2) /\
    h' = with_mem h (upd (mem h) c (w + sum_sizes run)) /\
    nb = c + hsize w + sum_sizes run.
Proof.
  induction t as [|w2 t2 IH]; intros fuel h c w nb h' Hs He Hc Hb Hm;
    destruct Hs as (Hmc & Hv & Hs); pose proof Hv as (Hw0 & Hw8 & Hw80).
  - simpl in Hs. rewrite Hs in Hm.
    assert (Hem : mapped h e = true) by (apply Hc; lia).
    destruct fuel; cbn [coalesce_merge] in Hm;
      rewrite (bind_Ok _ _ _ _ _ (load_ok _ _ Hem)), He in Hm; simpl in Hm;
      injection Hm as <- <-; exists [], [];
      (split; [reflexivity|]; split; [constructor|]; split; [left; reflexivity|]);
      (split; [rewrite Z.add_0_r, <- Hmc, upd_same, with_mem_id; reflexivity | simpl; lia]).
  - destruct Hs as (Hm2 & Hv2 & Hs2). pose proof Hv2 as (Hv20 & Hv28 & Hv280).
    pose proof (seg_len _ _ _ _ Hs2) as L2.
    assert (Hnm : mapped h (c + hsize w) = true) by (apply Hc; lia).
    assert (Hcm : mapped h c = true) by (apply Hc; lia).
    destruct fuel as [|f]; cbn [coalesce_merge] in Hm;
      rewrite (bind_Ok _ _ _ _ _ (load_ok _ _ Hnm)), Hm2 in Hm; cbv beta in Hm;
      rewrite (proj2 (Z.eqb_neq w2 1) (valid_ne1 _ Hv2)) in Hm; cbn [negb andb] in Hm;
      (destruct (Z.eqb_spec (Z.land w2 1) 0) as [Hf2 | Hnf2];
       [| injection Hm as <- <-; exists [], (w2 :: t2);
          split; [reflexivity|]; split; [constructor|];
          split; [right; exists w2, t2; split; [reflexivity | exact Hnf2]|];
          split; [rewrite Z.add_0_r, <- Hmc, upd_same, with_mem_id; reflexivity | simpl; lia]]).
    + discriminate.
    + rewrite (bind_Ok _ _ _ _ _ (load_ok _ _ Hcm)), Hmc in Hm. cbv beta in Hm.
      change (Z.land w2 (Z.lnot 3)) with (hsize w2) in Hm.
      pose proof (hsize_le w Hw0) as Hwle.
      rewrite (to_int_small (w + hsize w2)) in Hm by lia'.
      rewrite (bind_Ok _ _ _ _ _ (store_ok _ _ _ Hcm)) in Hm. cbv beta in Hm.
      set (w' := w + hsize w2) in *.
      set (m1 := upd (mem h) c w') in *.
      rewrite (bind_Ok _ _ _ _ _ (load_ok (with_mem h m1) c Hcm)) in Hm. cbv beta in Hm.
      cbn [mem with_mem] in Hm. unfold m1 at 1 in Hm. rewrite upd_eq in Hm.
      change (Z.land w' (Z.lnot 3)) with (hsize w') in Hm.
      assert (Hsw' : hsize w' = hsize w + hsize w2)
        by (unfold w'; apply hsize_add, valid_mod4, Hv2).
      assert (Hs' : seg (mem (with_mem h m1)) c e (w' :: t2)).
      { cbn [mem with_mem seg]. split; [apply upd_eq|]. split.
        - unfold valid_hdr. rewrite Hsw'.
          split; [unfold w'; pose proof (hsize_nonneg w2 Hv20); lia|].
          split; [lia|]. liam.
        - rewrite Hsw', Z.add_assoc. apply (seg_frame_range (mem h)); [exact Hs2|].
          intros y Hy. unfold m1. apply upd_ne. lia'. }
      assert (He' : mem (with_mem h m1) e = 1)
        by (cbn [mem with_mem]; unfold m1; rewrite upd_ne by lia'; exact He).
      destruct (IH f (with_mem h m1) c w' nb h' Hs' He' (covers_with_mem _ _ _ _ Hc) Hb Hm)
        as (run & rest & Ht & Hrun & Hrest & Hh' & Hnb).
      exists (w2 :: run), rest. split; [rewrite Ht; reflexivity|].
      split; [constructor; [exact Hf2 | exact Hrun]|]. split; [exact Hrest|].
      split.
      * rewrite Hh'. cbn [mem with_mem]. unfold m1. rewrite upd_upd, with_mem_with_mem.
        unfold w'. cbn [sum_sizes]. rewrite Z.add_assoc. reflexivity.
      * rewrite Hnb, Hsw'. cbn [sum_sizes]. lia.
Qed.

Lemma bind_Ok_inv {A B} (m : M A) (k : A -> M B) h b h'' :
  bind m k h = Ok b h'' -> exists a h', m h = Ok a h' /\ k a h' = Ok b h''.
Proof. unfold bind. destruct (m h) as [a h'| |]; intros H; [eauto | discriminate | discriminate]. Qed.

Lemma seg_sum_mod8 m a b ws : seg m a b ws -> sum_sizes ws mod 8 = 0.
Proof.
  revert a; induction ws as [|w t IH]; simpl; intros a H; [reflexivity|].
  destruct H as (_ & (_ & _ & Hw) & H). apply IH in H. Z.div_mod_to_equations. lia.
Qed.

Lemma coalesce_loop_end mf fuel c h :
  mapped h c = true -> mem h c = 1 -> coalesce_loop mf fuel c h = Ok tt h.
Proof.
  intros Hcm Hmc. destruct fuel; cbn [coalesce_loop];
    rewrite (bind_Ok _ _ _ _ _ (load_ok _ _ Hcm)), Hmc; reflexivity.
Qed.

Lemma alloc_blocks_app a l1 l2 :
  alloc_blocks a (l1 ++ l2) = alloc_blocks a l1 ++ alloc_blocks (a + sum_sizes l1) l2.
Proof.
  revert a; induction l1 as [|w t IH]; intros a; cbn [app alloc_blocks sum_sizes].
  - now rewrite Z.add_0_r.
  - rewrite IH, app_assoc, Z.add_assoc. reflexivity.
Qed.

Lemma alloc_blocks_free a run : Forall is_free run -> alloc_blocks a run = [].
Proof.
  intros H. revert a; induction H as [|w t Hw _ IH]; intros a; [reflexivity|].
  cbn [alloc_blocks]. unfold is_free in Hw. rewrite Hw, IH. reflexivity.
Qed.

Lemma free_bytes_app l1 l2 : free_bytes (l1 ++ l2) = free_bytes l1 + free_bytes l2.
Proof. induction l1 as [|w t IH]; cbn; [reflexivity|]. rewrite IH. lia. Qed.

Lemma free_bytes_free run : Forall is_free run -> free_bytes run = sum_sizes run.
Proof.
  induction 1 as [|w t Hw _ IH]; [reflexivity|].
  cbn. unfold is_free in Hw. rewrite Hw, IH. reflexivity.
Qed.

(** The outer loop, from the block at [c] to the sentinel at [e]: the blocks
    still tile, no free block is followed by a free block, nothing below [c]
    changes and an allocated first block keeps its header. *)
Lemma coalesce_loop_spec e mf : forall fuel ws h c h',
  seg (mem h) c e ws -> mem h e = 1 -> covers h c e -> e - c + 3 <= INT_MAX ->
  coalesce_loop mf fuel c h = Ok tt h' ->
  exists ws', seg (mem h') c e ws' /\ coalesced ws' /\ mem h' e = 1 /\
    h' = with_mem h (mem h') /\
    (forall y, y < c -> mem h' y = mem h y) /\
    (forall w t, ws = w :: t -> ~ is_free w -> exists t', ws' = w :: t') /\
    alloc_blocks c ws' = alloc_blocks c ws /\ free_bytes ws' = free_bytes ws.
Proof.
  induction fuel as [|f IH]; intros ws h c h' Hs He Hc Hb Hl;
    (destruct ws as [|w t];
     [simpl in Hs; subst c;
      rewrite (coalesce_loop_end _ _ _ _ (Hc e ltac:(lia)) He) in Hl;
      injection Hl as <-; exists [];
      split; [reflexivity|]; split; [exact I|]; split; [exact He|];
      split; [symmetry; apply with_mem_id|]; split; [reflexivity|];
      split; [discriminate | split; reflexivity]|]);
    destruct Hs as (Hmc & Hv & Hs); pose proof Hv as (Hw0 & Hw8 & Hw80);
    pose proof (seg_len _ _ _ _ Hs) as L;
    assert (Hcm : mapped h c = true) by (apply Hc; lia);
    cbn [coalesce_loop] in Hl; rewrite (bind_Ok _ _ _ _ _ (load_ok _ _ Hcm)), Hmc in Hl;
    cbv beta in Hl; rewrite (proj2 (Z.eqb_neq w 1) (valid_ne1 _ Hv)) in Hl;
    [discriminate|].
  destruct (Z.eqb_spec (Z.land w 1) 0) as [Hf | Hnf].
  - (* a free block: merge the run that follows it *)
    apply bind_Ok_inv in Hl. destruct Hl as (u & h2 & Hx & Hy).
    apply bind_Ok_inv in Hx. destruct Hx as (nb & h1 & Hmg & Hx).
    change (Z.land w (Z.lnot 3)) with (hsize w) in Hmg.
    destruct (coalesce_merge_spec e t mf h c w nb h1 (conj Hmc (conj Hv Hs)) He Hc Hb Hmg)
      as (run & rest & Ht & Hrun & Hrest & Hh1 & Hnb).
    rewrite Ht in Hs. apply seg_app in Hs. destruct Hs as [Hsrun Hsrest].
    rewrite <- Hnb in Hsrest.
    pose proof (seg_sum_mod8 _ _ _ _ Hsrun) as Hrm8.
    pose proof (seg_len _ _ _ _ Hsrun) as Lrun.
    pose proof (seg_len _ _ _ _ Hsrest) as Lrest.
    set (W := w + sum_sizes run) in *.
    set (m1 := upd (mem h) c W) in *.
    assert (Hnbc : c < nb <= e) by lia'.
    assert (HnbM : mapped h nb = true) by (apply Hc; lia').
    assert (Hm1nb : m1 nb = mem h nb) by (unfold m1; apply upd_ne; lia').
    assert (HsW : hsize W = nb - c).
    { unfold W. rewrite hsize_add by (Z.div_mod_to_equations; lia). lia'. }
    subst h1.
    rewrite (bind_Ok _ _ _ _ _ (load_ok (with_mem h m1) nb HnbM)) in Hx.
    cbn [mem with_mem] in Hx. rewrite Hm1nb in Hx.
    assert (Hmid : exists m2 rest', h2 = with_mem h m2 /\ seg m2 nb e rest' /\
              m2 e = 1 /\ m2 c = W /\ (forall y, y < nb -> y <> c -> m2 y = mem h y) /\
              (forall x t', rest' = x :: t' -> ~ is_free x /\ Z.lor x 2 = x) /\
              alloc_blocks nb rest' = alloc_blocks nb rest /\ free_bytes rest' = free_bytes rest).
    { destruct Hrest as [-> | (w2 & t2 & -> & Hnf2)].
      - simpl in Hsrest. rewrite Hsrest, He in Hx. simpl in Hx. injection Hx as _ <-.
        exists m1, []. split; [reflexivity|]. split; [exact Hsrest|].
        split; [unfold m1; rewrite upd_ne by lia'; exact He|].
        split; [apply upd_eq|]. split; [intros y _ Hyc; apply upd_ne; exact Hyc|].
        split; [discriminate | split; reflexivity].
      - destruct Hsrest as (Hm2 & Hv2 & Hs2). pose proof Hv2 as (_ & Hv28 & _).
        pose proof (seg_len _ _ _ _ Hs2) as L2.
        rewrite Hm2, (proj2 (Z.eqb_neq w2 1) (valid_ne1 _ Hv2)) in Hx. cbn [negb] in Hx.
        rewrite (store_ok (with_mem h m1) nb _ HnbM) in Hx. injection Hx as _ <-.
        exists (upd m1 nb (Z.lor w2 2)), (Z.lor w2 2 :: t2).
        split; [reflexivity|]. split.
        + cbn [seg]. split; [apply upd_eq|]. split; [apply valid_lor2, Hv2|].
          rewrite hsize_lor2. apply (seg_frame_range (mem h)); [exact Hs2|].
          intros y Hy0. unfold m1. rewrite !upd_ne by lia'. reflexivity.
        + split; [unfold m1; rewrite !upd_ne by lia'; exact He|].
          split; [rewrite upd_ne by lia'; apply upd_eq|].
          split; [intros y Hy0 Hyc; unfold m1; rewrite !upd_ne by lia'; reflexivity|].
          split; [intros x t' [= <- _]; split; [|apply lor2_idem];
                  unfold is_free; rewrite par_lor2; exact Hnf2|].
          cbn [alloc_blocks free_bytes]. rewrite par_lor2, hsize_lor2. split; reflexivity. }
    destruct Hmid as (m2 & rest' & -> & Hs2 & He2 & Hm2c & Hfr2 & Hhd2 & Hal2 & Hfb2).
    rewrite (bind_Ok _ _ _ _ _ (load_ok (with_mem h m2) c Hcm)) in Hy. cbv beta in Hy.
    cbn [mem with_mem] in Hy. rewrite Hm2c in Hy.
    change (Z.land W (Z.lnot 3)) with (hsize W) in Hy. rewrite HsW in Hy.
    replace (c + (nb - c)) with nb in Hy by lia.
    assert (Hc2 : covers (with_mem h m2) nb e)
      by (intros y Hy'; rewrite mapped_with_mem; apply Hc; lia).
    destruct (IH rest' (with_mem h m2) nb h' Hs2 He2 Hc2 ltac:(lia) Hy)
      as (ws'' & Hs'' & Hco & He'' & Hh' & Hfr & Hhd & Hal & Hfb).
    exists (W :: ws''). split; [|split; [|split; [exact He''|split; [|split]]]].
    + cbn [seg]. split; [rewrite Hfr by lia; exact Hm2c|]. split.
      * unfold valid_hdr. rewrite HsW. split; [unfold W; lia'|]. split; [lia|].
        rewrite Hnb. Z.div_mod_to_equations. lia.
      * rewrite HsW. replace (c + (nb - c)) with nb by lia. exact Hs''.
    + cbn [coalesced]. split; [|exact Hco]. intros _.
      destruct ws'' as [|x t'']; [exact I|].
      destruct rest' as [|x0 t0].
      * simpl in Hs2. subst nb. pose proof (seg_len _ _ _ _ Hs''). simpl in H. lia.
      * destruct (Hhd2 x0 t0 eq_refl) as [Hnf0 Hor0].
        destruct (Hhd x0 t0 eq_refl Hnf0) as (t1 & [= <- _]). auto.
    + rewrite Hh'. reflexivity.
    + intros y Hy'. rewrite Hfr by lia. cbn [mem with_mem]. apply Hfr2; lia.
    + split; [intros w0 t0 [= <- _] Hnf; contradiction|].
      assert (HW1 : Z.land W 1 = 0) by (unfold W; rewrite par_add by liam; exact Hf).
      rewrite Ht. cbn [alloc_blocks free_bytes]. rewrite HW1, Hf.
      change (0 =? 0) with true. change (0 =? 1) with false. cbv iota.
      rewrite HsW. replace (c + (nb - c)) with nb by lia.
      rewrite Hal, Hal2, Hfb, Hfb2, alloc_blocks_app, (alloc_blocks_free _ _ Hrun),
        free_bytes_app, (free_bytes_free _ Hrun), Hnb.
      split; [reflexivity | lia].
  - (* an allocated block: move on *)
    cbv [ret bind] in Hl. rewrite (load_ok _ _ Hcm), Hmc in Hl.
    change (Z.land w (Z.lnot 3)) with (hsize w) in Hl.
    assert (Hc' : covers h (c + hsize w) e) by (intros y Hy; apply Hc; lia).
    destruct (IH t h (c + hsize w) h' Hs He Hc' ltac:(lia) Hl)
      as (ws'' & Hs'' & Hco & He'' & Hh' & Hfr & _ & Hal & Hfb).
    exists (w :: ws''). split; [|split; [|split; [exact He''|split; [exact Hh'|split]]]].
    + cbn [seg]. split; [rewrite Hfr by lia; exact Hmc|]. split; [exact Hv | exact Hs''].
    + cbn [coalesced]. split; [|exact Hco]. intros Hf. contradiction.
    + intros y Hy. apply Hfr. lia.
    + split; [intros w0 t0 [= <- _] _; eauto|].
      cbn [alloc_blocks free_bytes]. rewrite Hal, Hfb. split; reflexivity.
Qed.

(** On a coalesced heap the loop changes nothing. *)
Lemma coalesce_loop_noop e mf ws : forall fuel h c,
  seg (mem h) c e ws -> coalesced ws -> mem h e = 1 -> covers h c e ->
  (length ws <= fuel)%nat -> coalesce_loop mf fuel c h = Ok tt h.
Proof.
  induction ws as [|w t IH]; intros fuel h c Hs Hco He Hc Hf.
  - simpl in Hs. subst c. apply coalesce_loop_end; [apply Hc; lia | exact He].
  - destruct Hs as (Hmc & Hv & Hs). destruct Hco as [Hco1 Hco].
    destruct fuel as [|f]; [simpl in Hf; lia|].
    pose proof Hv as (Hw0 & Hw8 & _). pose proof (seg_len _ _ _ _ Hs) as L.
    assert (Hcm : mapped h c = true) by (apply Hc; lia).
    assert (Hnbm : mapped h (c + hsize w) = true) by (apply Hc; lia).
    assert (Hc' : covers h (c + hsize w) e) by (intros y Hy; apply Hc; lia).
    cbn [coalesce_loop]. rewrite (bind_Ok _ _ _ _ _ (load_ok _ _ Hcm)), Hmc. cbv beta.
    rewrite (proj2 (Z.eqb_neq w 1) (valid_ne1 _ Hv)).
    assert (Hnext : (cw <- load c ;; coalesce_loop mf f (c + Z.land cw (Z.lnot 3))) h
                    = Ok tt h).
    { rewrite (bind_Ok _ _ _ _ _ (load_ok _ _ Hcm)), Hmc. cbv beta.
      apply IH; auto. simpl in Hf. lia. }
    destruct (Z.eqb_spec (Z.land w 1) 0) as [Hfr | Hnf].
    + specialize (Hco1 Hfr).
      change (Z.land w (Z.lnot 3)) with (hsize w).
      assert (Hmg : coalesce_merge mf c (c + hsize w) h = Ok (c + hsize w) h).
      { destruct t as [|w2 t2].
        - simpl in Hs. rewrite Hs in *.
          destruct mf; cbn [coalesce_merge];
            rewrite (bind_Ok _ _ _ _ _ (load_ok _ _ Hnbm)), He; reflexivity.
        - destruct Hs as (Hm2 & Hv2 & _). destruct Hco1 as [Hnf2 _].
          destruct mf; cbn [coalesce_merge];
            rewrite (bind_Ok _ _ _ _ _ (load_ok _ _ Hnbm)), Hm2; cbv beta;
            rewrite (proj2 (Z.eqb_neq w2 1) (valid_ne1 _ Hv2)); cbn [negb andb];
            rewrite (proj2 (Z.eqb_neq _ 0) Hnf2); reflexivity. }
      match goal with |- bind ?X _ h = _ => assert (HX : X h = Ok tt h) end.
      { rewrite (bind_Ok _ _ _ _ _ Hmg). cbv beta.
        rewrite (bind_Ok _ _ _ _ _ (load_ok _ _ Hnbm)). cbv beta.
        destruct t as [|w2 t2].
        - simpl in Hs. rewrite Hs, He. reflexivity.
        - destruct Hs as (Hm2 & Hv2 & _). destruct Hco1 as [_ Hor].
          rewrite Hm2, (proj2 (Z.eqb_neq w2 1) (valid_ne1 _ Hv2)). cbn [negb].
          rewrite (store_ok _ _ _ Hnbm), Hor, <- Hm2, upd_same, with_mem_id.
          reflexivity. }
      rewrite (bind_Ok _ _ _ _ _ HX). exact Hnext.
    + rewrite (bind_Ok (ret tt) _ h tt h eq_refl). exact Hnext.
Qed.

Lemma coalesced_no_adj ws : coalesced ws -> no_adj_free ws.
Proof.
  induction ws as [|w t IH]; [simpl; auto|].
  intros [H1 H2]. destruct t as [|w2 t2]; [exact I|].
  split; [|apply IH, H2]. intros [Hf1 Hf2]. destruct (H1 Hf1) as [Hn _]. contradiction.
Qed.

Lemma coalesce_spec fuel h ws r h' :
  wf h ws -> coalesce fuel h = Ok r h' ->
  r = 0 /\ exists ws', wf h' ws' /\ coalesced ws' /\ h' = with_mem h (mem h') /\
    alloc_blocks (heap_start h) ws' = alloc_blocks (heap_start h) ws /\
    free_bytes ws' = free_bytes ws.
Proof.
  intros Hwf Hc. pose proof Hwf as (H1 & H2 & H3 & H4 & H5 & H6 & H7).
  unfold coalesce in Hc. rewrite (bind_Ok get_heap_start _ h _ h eq_refl) in Hc.
  apply bind_Ok_inv in Hc. destruct Hc as ([] & h1 & Hl & Hr). injection Hr as <- <-.
  destruct (coalesce_loop_spec _ fuel fuel ws h (heap_start h) h1 H6 H7
              (wf_covers _ _ Hwf) ltac:(lia') Hl)
    as (ws' & Hs' & Hco & He' & Hh' & _ & _ & Hal & Hfb).
  split; [reflexivity|]. exists ws'.
  split; [|split; [exact Hco | split; [exact Hh' | split; assumption]]].
  rewrite Hh'. unfold wf; cbn [heap_start alloc_size allocated_once region mem with_mem].
  repeat split; auto.
Qed.

(** A second [coalesce] right after one leaves the heap unchanged. *)
Lemma coalesce_again fuel h ws :
  wf h ws -> coalesced ws -> (length ws <= fuel)%nat -> coalesce fuel h = Ok 0 h.
Proof.
  intros Hwf Hco Hf. pose proof Hwf as (H1 & H2 & H3 & H4 & H5 & H6 & H7).
  unfold coalesce. rewrite (bind_Ok get_heap_start _ h _ h eq_refl).
  rewrite (bind_Ok _ _ _ _ _ (coalesce_loop_noop _ fuel ws fuel h _ H6 Hco H7
                                  (wf_covers _ _ Hwf) Hf)).
  reflexivity.
Qed.

(** ** bfree *)

Lemma bfree_unfold ptr h :
  bfree ptr h =
  (if bfree_rejects h ptr then ret (-1) else
   let block := ptr - sizeof_blockHeader in
   w <- load block ;;
   if Z.land w 1 =? 0 then ret (-1) else
   store block (Z.land w (Z.lnot 1)) ;;;
   w' <- load block ;;
   let nextBlock := block + Z.land w' (Z.lnot 3) in
   nw <- load nextBlock ;;
   (if negb (nw =? 1) then store nextBlock (Z.land nw (Z.lnot 2)) else ret tt) ;;;
   ret 0) h.
Proof. reflexivity. Qed.

Lemma bfree_already_free ptr h :
  bfree_rejects h ptr = false -> mapped h (ptr - sizeof_blockHeader) = true ->
  Z.land (mem h (ptr - sizeof_blockHeader)) 1 = 0 -> bfree ptr h = Ok (-1) h.
Proof.
  intros Hg Hm Hw. rewrite bfree_unfold, Hg. cbv zeta.
  rewrite (bind_Ok _ _ _ _ _ (load_ok _ _ Hm)), Hw. reflexivity.
Qed.

(** What a call that gets past the checks does. *)
Lemma bfree_cases ptr h r h' :
  bfree ptr h = Ok r h' ->
  (r = -1 /\ h' = h) \/
  (r = 0 /\ bfree_rejects h ptr = false /\ mapped h (ptr - sizeof_blockHeader) = true /\
   let block := ptr - sizeof_blockHeader in
   let w := mem h block in
   let m1 := upd (mem h) block (Z.land w (Z.lnot 1)) in
   let nb := block + hsize (Z.land w (Z.lnot 1)) in
   mapped h nb = true /\
   h' = with_mem h (if m1 nb =? 1 then m1 else upd m1 nb (Z.land (m1 nb) (Z.lnot 2)))).
Proof.
  intros Hb. rewrite bfree_unfold in Hb.
  destruct (bfree_rejects h ptr) eqn:Hg; [injection Hb as <- <-; left; auto|].
  cbv zeta in Hb. set (block := ptr - sizeof_blockHeader) in *.
  destruct (mapped h block) eqn:Hm;
    [|rewrite (bind_Fault _ _ _ (load_fault _ _ Hm)) in Hb; discriminate].
  rewrite (bind_Ok _ _ _ _ _ (load_ok _ _ Hm)) in Hb. cbv beta in Hb.
  destruct (Z.land (mem h block) 1 =? 0); [injection Hb as <- <-; left; auto|].
  rewrite (bind_Ok _ _ _ _ _ (store_ok _ _ _ Hm)) in Hb. cbv beta in Hb.
  set (m1 := upd (mem h) block (Z.land (mem h block) (Z.lnot 1))) in *.
  rewrite (bind_Ok _ _ _ _ _ (load_ok (with_mem h m1) _ Hm)) in Hb. cbv beta in Hb.
  assert (Hm1b : m1 block = Z.land (mem h block) (Z.lnot 1)) by apply upd_eq.
  cbn [mem with_mem] in Hb. rewrite !Hm1b in Hb.
  change (Z.land (Z.land (mem h block) (Z.lnot 1)) (Z.lnot 3))
    with (hsize (Z.land (mem h block) (Z.lnot 1))) in Hb.
  set (nb := block + hsize (Z.land (mem h block) (Z.lnot 1))) in *.
  destruct (mapped h nb) eqn:Hnm;
    [|rewrite (bind_Fault _ _ _ (load_fault (with_mem h m1) _ Hnm)) in Hb; discriminate].
  rewrite (bind_Ok _ _ _ _ _ (load_ok (with_mem h m1) _ Hnm)) in Hb. cbv beta in Hb.
  cbn [mem with_mem] in Hb.
  right. cbv zeta. fold m1. fold nb. split; [|split; [auto | split; [auto | split; [auto|]]]].
  - destruct (m1 nb =? 1); cbn [negb] in Hb;
      [| rewrite (bind_Ok _ _ _ _ _ (store_ok (with_mem h m1) nb _ Hnm)) in Hb];
      injection Hb as <- _; reflexivity.
  - destruct (m1 nb =? 1); cbn [negb] in Hb;
      [| rewrite (bind_Ok _ _ _ _ _ (store_ok (with_mem h m1) nb _ Hnm)) in Hb];
      injection Hb as _ <-; reflexivity.
Qed.

(** [bfree] keeps the heap well formed, whatever the pointer: it only
    clears status bits. *)
Lemma bfree_wf ptr h ws r h' :
  wf h ws -> bfree ptr h = Ok r h' -> exists ws', wf h' ws'.
Proof.
  intros Hwf Hb. pose proof Hwf as (H1 & H2 & H3 & H4 & H5 & H6 & H7).
  destruct (bfree_cases _ _ _ _ Hb) as [[_ ->] | (_ & Hg & Hm & Hnm & ->)];
    [exists ws; exact Hwf|].
  set (block := ptr - sizeof_blockHeader) in *.
  set (m1 := upd (mem h) block (Z.land (mem h block) (Z.lnot 1))) in *.
  set (nb := block + hsize (Z.land (mem h block) (Z.lnot 1))) in *.
  unfold bfree_rejects in Hg. apply orb_false_iff in Hg as [Hg Hg4].
  rewrite Z.geb_leb in Hg4. apply Z.leb_gt in Hg4.
  assert (Hbe : block <> heap_start h + alloc_size h) by (unfold block, sizeof_blockHeader; lia).
  destruct (wf_upd_bits h ws block (Z.land (mem h block) (Z.lnot 1)) Hwf) as [ws1 Hwf1];
    [ apply (hdr_bits_ok _ _ _ _ _ (fun x => Z.land x (Z.lnot 1)) H6);
      intros x Hx; split; [apply valid_clear1, Hx | apply hsize_clear1]
    | exact Hbe |].
  fold m1 in Hwf1.
  destruct (Z.eqb_spec (m1 nb) 1) as [E | E]; [exists ws1; exact Hwf1|].
  pose proof Hwf1 as (_ & _ & _ & _ & _ & H6' & H7').
  destruct (wf_upd_bits (with_mem h m1) ws1 nb (Z.land (m1 nb) (Z.lnot 2)) Hwf1) as [ws2 Hwf2].
  - apply (hdr_bits_ok _ _ _ _ _ (fun x => Z.land x (Z.lnot 2)) H6').
    intros x Hx. split; [apply valid_clear2, Hx | apply hsize_clear2].
  - cbn [heap_start alloc_size with_mem]. intros Enb. apply E. rewrite Enb. exact H7'.
  - exists ws2. exact Hwf2.
Qed.

(** ** init_heap *)

Lemma store_seq {B} h a v (k : M B) :
  mapped h a = true -> (store a v ;;; k) h = k (with_mem h (upd (mem h) a v)).
Proof. intros H. exact (bind_Ok _ (fun _ => k) _ _ _ (store_ok _ _ _ H)). Qed.

Lemma load_bind {B} h a (k : Z -> M B) :
  mapped h a = true -> (x <- load a ;; k x) h = k (mem h a) h.
Proof. intros H. exact (bind_Ok _ _ _ _ _ (load_ok _ _ H)). Qed.

Ltac mapped_tac :=
  unfold mapped, sizeof_blockHeader; cbn;
  apply andb_true_intro; split; apply Z.leb_le; lia.

(** From the state before any successful call, [init_heap] either fails and
    leaves that state, or builds a heap of one free block. *)
Lemma init_from_uninit o n h r h' :
  os_ok o -> n <= INT_MAX -> uninit h -> init_heap o n h = Ok r h' ->
  (r = -1 /\ uninit h') \/ (r = 0 /\ exists ws, wf h' ws).
Proof.
  intros (Hpg & Hpg8 & Hmm) Hn (Ho & Hreg & Hhs) Hi.
  unfold init_heap in Hi.
  rewrite (bind_Ok get_allocated_once _ h _ h eq_refl) in Hi. cbv beta in Hi.
  rewrite Ho in Hi. change (negb (0 =? 0)) with false in Hi.
  destruct (Z.leb_spec n 0) as [Hle | Hgt].
  - injection Hi as <- <-. left. split; [reflexivity | split; auto].
  - cbv zeta in Hi.
    set (pg := pagesize o) in *.
    rewrite (Z.rem_mod_nonneg n pg) in Hi by lia.
    pose proof (Z.mod_pos_bound n pg ltac:(lia)) as Hq.
    rewrite (Z.rem_mod_nonneg (pg - n mod pg) pg) in Hi by lia.
    pose proof (Z.mod_pos_bound (pg - n mod pg) pg ltac:(lia)) as Hq2.
    set (P := n + (pg - n mod pg) mod pg) in *.
    assert (Hj : exists j, P = pg * j).
    { exists (n / pg + 1 - (pg - n mod pg) / pg). unfold P.
      pose proof (Z.div_mod n pg ltac:(lia)).
      pose proof (Z.div_mod (pg - n mod pg) pg ltac:(lia)). nia. }
    destruct Hj as [j Hj].
    assert (HPb : n <= P < n + pg) by (unfold P; lia).
    assert (Hj1 : 1 <= j) by nia.
    assert (HP16 : 16 <= P) by nia.
    assert (HP8 : P mod 8 = 0).
    { apply Z.mod_divide; [lia|]. rewrite Hj. apply Z.divide_mul_l.
      apply Z.mod_divide; [lia | exact Hpg8]. }
    clearbody P.
    destruct (Z_le_gt_dec P INT_MAX) as [HPi | HPo].
    + rewrite (to_int_small P) in Hi by lia'.
      rewrite (to_ulong_small P) in Hi by lia'.
      rewrite (bind_Ok (set_alloc_size P) _ h _ _ eq_refl) in Hi. cbv beta in Hi.
      destruct (os_mmap o P) as [base|] eqn:Hmp.
      * destruct (Hmm _ _ Hmp) as [Hb0 _].
        rewrite (bind_Ok (map_region base P) _ _ _ _ eq_refl) in Hi. cbv beta in Hi.
        rewrite (to_int_small (P - 8)) in Hi by lia'.
        rewrite (bind_Ok (set_globals _ _ _) _ _ _ _ eq_refl) in Hi. cbv beta in Hi.
        rewrite store_seq in Hi by mapped_tac.
        rewrite store_seq in Hi by mapped_tac.
        rewrite load_bind in Hi by mapped_tac.
        rewrite store_seq in Hi by mapped_tac.
        rewrite store_seq in Hi by mapped_tac.
        cbn [with_mem mem heap_start alloc_size allocated_once region] in Hi.
        set (hs := base + sizeof_blockHeader) in *.
        rewrite upd_eq, (to_int_small (P - 8 + 2)) in Hi by lia'.
        injection Hi as <- <-. right. split; [reflexivity|].
        exists [P - 6]. unfold wf; cbn [with_mem mem heap_start alloc_size allocated_once region].
        assert (Hh6 : hsize (P - 6) = P - 8) by (rewrite hsize_arith; liam).
        split; [reflexivity|]. split; [unfold hs, sizeof_blockHeader; lia|].
        split; [unfold hs, sizeof_blockHeader; f_equal; f_equal; lia|].
        split; [lia|]. split; [lia'|]. split.
        -- cbn [seg]. split.
           ++ rewrite upd_ne, upd_eq by (unfold hs, sizeof_blockHeader; lia). lia.
           ++ split; [unfold valid_hdr; rewrite Hh6; split; [lia|]; split; [lia | liam]|].
              rewrite Hh6. reflexivity.
        -- rewrite !upd_ne by (unfold hs, sizeof_blockHeader; lia). apply upd_eq.
      * injection Hi as <- <-. left. split; [reflexivity | split; auto].
    + rewrite (to_int_high P) in Hi by lia'.
      rewrite (to_ulong_neg (P - 2 ^ 32)) in Hi by lia'.
      rewrite (bind_Ok (set_alloc_size _) _ h _ _ eq_refl) in Hi. cbv beta in Hi.
      destruct (os_mmap o (P - 2 ^ 32 + 2 ^ 64)) as [base|] eqn:Hmp.
      * destruct (Hmm _ _ Hmp) as [_ Hbig]. lia.
      * injection Hi as <- <-. left. split; [reflexivity | split; auto].
Qed.

(** ** Calls before a successful [init_heap] *)

Lemma mapped_uninit h a : uninit h -> mapped h a = false.
Proof. intros (_ & Hr & _). unfold mapped. rewrite Hr. reflexivity. Qed.

Lemma balloc_uninit fuel n h : uninit h -> 1 <= n -> balloc fuel n h = Fault.
Proof.
  intros Hu Hn. pose proof Hu as (_ & _ & Hhs).
  unfold balloc. rewrite (proj2 (Z.ltb_ge n 1) Hn). cbv zeta.
  rewrite (bind_Ok get_heap_start _ h _ h eq_refl), Hhs.
  apply bind_Fault. destruct fuel; cbn [balloc_scan];
    apply bind_Fault, load_fault, mapped_uninit, Hu.
Qed.

Lemma coalesce_uninit fuel h : uninit h -> coalesce fuel h = Fault.
Proof.
  intros Hu. unfold coalesce. rewrite (bind_Ok get_heap_start _ h _ h eq_refl).
  apply bind_Fault. destruct fuel; cbn [coalesce_loop];
    apply bind_Fault, load_fault, mapped_uninit, Hu.
Qed.

Lemma bfree_uninit ptr h r h' : uninit h -> bfree ptr h = Ok r h' -> r = -1 /\ h' = h.
Proof.
  intros Hu Hb. destruct (bfree_cases _ _ _ _ Hb) as [H | (_ & _ & Hm & _)]; [exact H|].
  rewrite mapped_uninit in Hm by exact Hu. discriminate.
Qed.

Lemma init_again o n h ws : wf h ws -> init_heap o n h = Ok (-1) h.
Proof.
  intros (H1 & _). unfold init_heap.
  rewrite (bind_Ok get_allocated_once _ h _ h eq_refl). cbv beta. rewrite H1. reflexivity.
Qed.

(** ** Sequences of calls *)

Lemma exec_inv o fuel c h r h' :
  os_ok o -> int_arg c -> heap_inv h -> exec o fuel c h = Ok r h' -> heap_inv h'.
Proof.
  intros Ho Hc [Hu | (ws & Hwf)] He; destruct c as [n | n | p |]; cbn [exec int_arg] in *.
  - destruct (init_from_uninit o n h r h' Ho (proj2 Hc) Hu He) as [[_ H] | [_ H]];
      [left | right]; exact H.
  - destruct (Z.ltb_spec n 1) as [Hlt | Hge].
    + unfold balloc in He. rewrite (proj2 (Z.ltb_lt n 1) Hlt) in He.
      injection He as _ <-. left. exact Hu.
    + rewrite balloc_uninit in He by assumption. discriminate.
  - destruct (bfree_uninit _ _ _ _ Hu He) as [_ ->]. left. exact Hu.
  - rewrite coalesce_uninit in He by assumption. discriminate.
  - rewrite (init_again o n h ws Hwf) in He. injection He as _ <-. right. eauto.
  - right. exact (balloc_wf _ _ _ _ _ _ Hwf (proj2 Hc) He).
  - right. exact (bfree_wf _ _ _ _ _ Hwf He).
  - destruct (coalesce_spec _ _ _ _ _ Hwf He) as (_ & ws' & Hwf' & _). right. eauto.
Qed.

Lemma run_inv o fuel cs : forall h rs h',
  os_ok o -> Forall int_arg cs -> heap_inv h -> run o fuel cs h = Ok rs h' -> heap_inv h'.
Proof.
  induction cs as [|c cs IH]; intros h rs h' Ho Hcs Hi Hr.
  - injection Hr as _ <-. exact Hi.
  - inversion Hcs as [|? ? Hc Hcs']; subst.
    cbn [run] in Hr. apply bind_Ok_inv in Hr. destruct Hr as (r & h1 & He & Hr).
    apply bind_Ok_inv in Hr. destruct Hr as (rs' & h2 & Hr & Hret).
    injection Hret as _ <-.
    exact (IH h1 rs' h2 Ho Hcs' (exec_inv _ _ _ _ _ _ Ho Hc Hi He) Hr).
Qed.

(** ** Concrete runs *)

Ltac concrete := vm_compute; repeat split; try reflexivity; try discriminate.

Lemma linux_ok : os_ok linux.
Proof.
  split; [cbn; lia|split; [reflexivity|]]. intros len base H. unfold linux in H. cbn [os_mmap] in H.
  destruct ((0 <? len) && (len <? 2 ^ 31)) eqn:E; [|discriminate].
  injection H as <-. apply andb_true_iff in E as [_ E]. apply Z.ltb_lt in E. lia.
Qed.

Lemma not_free_footers_ok h ws a w :
  In (a, w) (blocks (heap_start h) ws) -> is_free w ->
  hsize (mem h (a + hsize w - 4)) <> hsize w -> ~ free_footers_ok h ws.
Proof. intros Hin Hf Hne H. exact (Hne (H a w Hin Hf)). Qed.

Lemma uninit_heap0 : uninit heap0.
Proof. split; [reflexivity | split; reflexivity]. Qed.

(** ** The claims *)

(** C1 (witness): on [h_freed], whose free blocks have 24 and 4040 bytes, a
    request of 16 bytes gets the 24-byte block at 1048580. *)
Lemma balloc_best_fit_witness :
  exists r h', best_fit (round_up8 (16 + 4)) (blocks (heap_start h_freed) [26; 25; 4042]) r /\
               balloc 100 16 h_freed = Ok (r + sizeof_blockHeader) h'.
Proof.
  apply (balloc_best_fit 100 16 h_freed [26; 25; 4042]).
  - concrete.
  - unfold INT_MAX. lia.
  - cbn. lia.
  - exists 1048580, 26. split; [vm_compute; auto | concrete].
Defined.

(** C2: free blocks do not get their footer written.  The split in
    [balloc(16)] leaves the old footer of the initial block (4088) at the end
    of the 4064-byte free remainder; [bfree] of the 24-byte block at 1048580
    leaves its last word 0; [coalesce] merging two 24-byte free blocks into
    one of 48 bytes leaves its last word 0. *)
Theorem free_footers_not_written :
  (wf h_one [27; 4066] /\ mem h_one (1048604 + 4064 - 4) = 4088 /\
   ~ free_footers_ok h_one [27; 4066]) /\
  (wf h_freed [26; 25; 4042] /\ mem h_freed (1048580 + 24 - 4) = 0 /\
   ~ free_footers_ok h_freed [26; 25; 4042]) /\
  (coalesce 100 h_pair_freed = Ok 0 h_coal /\ wf h_coal [50; 27; 4018] /\
   mem h_coal (1048580 + 48 - 4) = 0 /\ ~ free_footers_ok h_coal [50; 27; 4018]).
Proof.
  split; [|split].
  - split; [concrete|split; [concrete|]].
    apply (not_free_footers_ok _ _ 1048604 4066); [vm_compute; auto | concrete | concrete].
  - split; [concrete|split; [concrete|]].
    apply (not_free_footers_ok _ _ 1048580 26); [vm_compute; auto | concrete | concrete].
  - split; [concrete|split; [concrete|split; [concrete|]]].
    apply (not_free_footers_ok _ _ 1048580 50); [vm_compute; auto | concrete | concrete].
Qed.

(** C3: when [balloc(4)] splits the free 24-byte block at 1048580 into an
    allocated block of 8 and a free block of 16, the block after the free
    one (at 1048604, allocated) has its [prev_allocated] bit set to 1, not
    cleared: before the call it was 0. *)
Theorem split_sets_next_prev_bit :
  balloc 100 4 h_freed = Ok 1048584 h_split /\
  wf h_split [11; 18; 27; 4042] /\ is_free (mem h_split 1048588) /\
  prev_alloc_bit (mem h_freed 1048604) = false /\
  prev_alloc_bit (mem h_split 1048604) = true.
Proof. concrete. Qed.

(** C4: [coalesce] merges the free blocks at 1048580 and 1048604 into one
    block of 48 bytes; the block after the run (at 1048628, allocated) has
    its [prev_allocated] bit set to 1, not cleared: before the call it was 0. *)
Theorem coalesce_sets_next_prev_bit :
  wf h_pair_freed [26; 24; 25; 4018] /\
  coalesce 100 h_pair_freed = Ok 0 h_coal /\ wf h_coal [50; 27; 4018] /\
  prev_alloc_bit (mem h_pair_freed 1048628) = false /\
  prev_alloc_bit (mem h_coal 1048628) = true.
Proof. concrete. Qed.

(** C5: on an initialized heap, after [coalesce] the decoded blocks have no
    two adjacent free ones, and a second [coalesce] returns 0 and leaves the
    whole state unchanged. *)
Theorem coalesce_no_adjacent_free_idempotent fuel h ws r h' :
  wf h ws -> coalesce fuel h = Ok r h' ->
  exists ws', wf h' ws' /\ no_adj_free ws' /\
    forall fuel', (length ws' <= fuel')%nat -> coalesce fuel' h' = Ok 0 h'.
Proof.
  intros Hwf Hc. destruct (coalesce_spec _ _ _ _ _ Hwf Hc) as (_ & ws' & Hwf' & Hco & _).
  exists ws'. split; [exact Hwf' | split; [apply coalesced_no_adj, Hco |]].
  intros fuel' Hf. exact (coalesce_again _ _ _ Hwf' Hco Hf).
Qed.

Lemma coalesce_no_adjacent_free_idempotent_witness :
  exists ws', wf h_coal ws' /\ no_adj_free ws' /\
    forall fuel', (length ws' <= fuel')%nat -> coalesce fuel' h_coal = Ok 0 h_coal.
Proof.
  apply (coalesce_no_adjacent_free_idempotent 100 h_pair_freed [26; 24; 25; 4018] 0 h_coal);
    concrete.
Defined.

(** C6: [bfree] returns 0 or -1; when it returns -1 (null, misaligned or
    out-of-range pointer, or a block whose allocated bit is clear) the state
    is unchanged; after it returns 0, a second [bfree] of the same pointer
    returns -1 and changes nothing. *)
Theorem bfree_failure_no_mutation p h r h' :
  bfree p h = Ok r h' ->
  (r = 0 \/ r = -1) /\ (r <> 0 -> h' = h) /\ (r = 0 -> bfree p h' = Ok (-1) h').
Proof.
  intros Hb. destruct (bfree_cases _ _ _ _ Hb) as [[-> ->] | (-> & Hg & Hm & Hnm & ->)].
  - split; [right; reflexivity | split; [reflexivity | discriminate]].
  - split; [left; reflexivity | split; [intros []; reflexivity | intros _]].
    set (block := p - sizeof_blockHeader) in *.
    set (m1 := upd (mem h) block (Z.land (mem h block) (Z.lnot 1))) in *.
    set (nb := block + hsize (Z.land (mem h block) (Z.lnot 1))) in *.
    apply bfree_already_free; [exact Hg | rewrite mapped_with_mem; exact Hm |].
    fold block. cbn [mem with_mem].
    assert (Hm1 : m1 block = Z.land (mem h block) (Z.lnot 1)) by apply upd_eq.
    destruct (m1 nb =? 1).
    + rewrite Hm1. apply par_clear1.
    + destruct (Z.eq_dec block nb) as [E | E].
      * rewrite <- E, upd_eq, Hm1, par_clear2. apply par_clear1.
      * rewrite upd_ne by exact E.
        rewrite Hm1. apply par_clear1.
Qed.

Lemma bfree_failure_no_mutation_witness :
  (0 = 0 \/ 0 = -1) /\ (0 <> 0 -> h_freed = h_two) /\
  (0 = 0 -> bfree 1048584 h_freed = Ok (-1) h_freed).
Proof. apply (bfree_failure_no_mutation 1048584 h_two 0 h_freed). concrete. Defined.

(** C7: [blockSize] is the least multiple of 8 that is at least [n + 4] for
    [1 <= n <= INT_MAX - 11] only; for the 11 largest [int]s the [int]
    conversion wraps and [blockSize] is below [n + 4] (negative), and
    [balloc(INT_MAX)] after [init_heap(4096)] writes outside the region. *)
Theorem blockSize_overflow :
  (forall n, 1 <= n <= INT_MAX - 11 ->
     blockSize_of n mod 8 = 0 /\ n + sizeof_blockHeader <= blockSize_of n /\
     forall r, r mod 8 = 0 -> n + sizeof_blockHeader <= r -> blockSize_of n <= r) /\
  (forall n, INT_MAX - 10 <= n <= INT_MAX -> blockSize_of n < n + sizeof_blockHeader) /\
  blockSize_of INT_MAX = -2147483640 /\
  run linux 100 [OInit 4096; OAlloc INT_MAX] heap0 = Fault.
Proof.
  split; [|split; [|split]].
  - intros n Hn. destruct (blockSize_of_spec n ltac:(unfold INT_MAX in *; lia))
      as [[Hle E] | [Hov E]]; unfold round_up8 in *.
    + rewrite E. unfold sizeof_blockHeader. split; [|split]; [liam | liam |].
      intros r Hr Hle'. liam.
    + exfalso. liam.
  - intros n Hn. destruct (blockSize_of_spec n ltac:(unfold INT_MAX in *; lia))
      as [[Hle E] | [Hov E]]; unfold round_up8, sizeof_blockHeader in *.
    + exfalso. liam.
    + rewrite E. liam.
  - reflexivity.
  - vm_compute. reflexivity.
Qed.

(** C8 (as amended): from the state before [init_heap], after any sequence
    of calls with [int] arguments, either no [init_heap] has succeeded, or
    the region is [base, base + len): walking from [heap_start = base + 4]
    by the stored sizes reaches the sentinel word, exactly 1, at
    [base + len - 4], and the block sizes sum to [len - 8]. *)
Theorem run_tiles_region o fuel cs rs h :
  os_ok o -> Forall int_arg cs -> run o fuel cs heap0 = Ok rs h ->
  uninit h \/ exists ws base len,
    region h = Some (base, len) /\ heap_start h = base + sizeof_blockHeader /\
    seg (mem h) (heap_start h) (base + len - 4) ws /\ mem h (base + len - 4) = 1 /\
    sum_sizes ws = len - 8.
Proof.
  intros Ho Hcs Hr.
  destruct (run_inv _ _ _ _ _ _ Ho Hcs (or_introl uninit_heap0) Hr) as [Hu | (ws & Hwf)];
    [left; exact Hu | right].
  destruct Hwf as (H1 & H2 & H3 & H4 & H5 & H6 & H7).
  exists ws, (heap_start h - 4), (alloc_size h + 8).
  assert (E : heap_start h - 4 + (alloc_size h + 8) - 4 = heap_start h + alloc_size h) by lia.
  rewrite E. pose proof (seg_sum _ _ _ _ H6) as Hs.
  unfold sizeof_blockHeader. repeat split; auto; lia.
Qed.

Lemma run_tiles_region_witness :
  uninit h_A \/ exists ws base len,
    region h_A = Some (base, len) /\ heap_start h_A = base + sizeof_blockHeader /\
    seg (mem h_A) (heap_start h_A) (base + len - 4) ws /\ mem h_A (base + len - 4) = 1 /\
    sum_sizes ws = len - 8.
Proof.
  apply (run_tiles_region linux 100 [OInit 4096; OAlloc 100] [0; 1048584] h_A).
  - exact linux_ok.
  - repeat apply Forall_cons; try apply Forall_nil; unfold int_arg, INT_MIN, INT_MAX; lia.
  - concrete.
Defined.

(** C8 (counterexample): [init_heap(4096)] maps a region of 4096 bytes, the
    padded size, but every block walk from [heap_start] to the sentinel sums
    to 4088. *)
Lemma init_blocks_sum_4088 :
  run linux 100 [OInit 4096] heap0 = Ok [0] h_init /\
  region h_init = Some (1048576, 4096) /\ mem h_init (1048576 + 4096 - 4) = 1 /\
  seg (mem h_init) (heap_start h_init) 1052668 [4090] /\
  (forall ws, seg (mem h_init) (heap_start h_init) 1052668 ws -> sum_sizes ws = 4088).
Proof.
  split; [concrete | split; [concrete | split; [concrete | split; [concrete |]]]].
  intros ws Hs. apply seg_sum in Hs.
  assert (E : heap_start h_init = 1048580) by (vm_compute; reflexivity).
  rewrite E in Hs. lia.
Qed.

(** C9 (as amended): on an initialized heap, for [p] 8-aligned in
    [heap_start + 4, heap_start + alloc_size) whose preceding word has bit 0
    set (nothing else of [p] is checked): when the word after the block that
    word describes is inside the region, [bfree p] returns 0 and clears that
    bit; when it is outside the region, [bfree p] reads it out of bounds: a
    fault, no return. *)
Theorem bfree_accepts_bit0_words p h ws :
  wf h ws -> p mod 8 = 0 -> heap_start h + 4 <= p < heap_start h + alloc_size h ->
  Z.land (mem h (p - 4)) 1 = 1 ->
  (mapped h (p - 4 + hsize (mem h (p - 4))) = true ->
   exists h', bfree p h = Ok 0 h' /\ Z.land (mem h' (p - 4)) 1 = 0) /\
  (mapped h (p - 4 + hsize (mem h (p - 4))) = false -> bfree p h = Fault).
Proof.
  intros Hwf H8 Hp Hw. pose proof Hwf as (_ & H2 & _).
  assert (Hg : bfree_rejects h p = false).
  { assert (Hu : to_ulong p mod 8 = 0) by (unfold to_ulong; liam).
    unfold bfree_rejects, NULL, sizeof_blockHeader.
    rewrite Hu, (proj2 (Z.eqb_neq p 0)) by lia.
    rewrite (proj2 (Z.ltb_ge _ _)) by lia. rewrite Z.geb_leb, (proj2 (Z.leb_gt _ _)) by lia.
    reflexivity. }
  assert (Hm : mapped h (p - sizeof_blockHeader) = true)
    by (apply (wf_covers _ _ Hwf); unfold sizeof_blockHeader; lia).
  change (p - 4) with (p - sizeof_blockHeader) in *.
  rewrite bfree_unfold, Hg. cbv zeta. set (block := p - sizeof_blockHeader) in *.
  rewrite (load_bind _ _ _ Hm), Hw. cbv beta. change (1 =? 0) with false. cbv iota.
  rewrite (store_seq _ _ _ _ Hm).
  set (m1 := upd (mem h) block (Z.land (mem h block) (Z.lnot 1))).
  rewrite (load_bind (with_mem h m1) _ _ Hm). cbn [mem with_mem].
  assert (Hm1 : m1 block = Z.land (mem h block) (Z.lnot 1)) by apply upd_eq.
  rewrite Hm1.
  change (Z.land (Z.land (mem h block) (Z.lnot 1)) (Z.lnot 3))
    with (hsize (Z.land (mem h block) (Z.lnot 1))).
  rewrite hsize_clear1.
  set (nb := block + hsize (mem h block)) in *.
  split; intros Hnm.
  - rewrite (load_bind (with_mem h m1) _ _ Hnm). cbn [mem with_mem].
    destruct (m1 nb =? 1); cbn [negb].
    + eexists. split; [reflexivity|]. cbn [mem with_mem]. rewrite Hm1. apply par_clear1.
    + rewrite (store_seq (with_mem h m1) _ _ _ Hnm).
      eexists. split; [reflexivity|]. cbn [mem with_mem].
      destruct (Z.eq_dec block nb) as [E | E].
      * rewrite <- E, upd_eq, Hm1, par_clear2. apply par_clear1.
      * rewrite upd_ne by exact E.
        rewrite Hm1. apply par_clear1.
  - apply bind_Fault, load_fault. rewrite mapped_with_mem. exact Hnm.
Qed.

Lemma bfree_accepts_bit0_words_witness :
  (mapped (h_user 9) (1048592 - 4 + hsize (mem (h_user 9) (1048592 - 4))) = true ->
   exists h', bfree 1048592 (h_user 9) = Ok 0 h' /\ Z.land (mem h' (1048592 - 4)) 1 = 0) /\
  (mapped (h_user 9) (1048592 - 4 + hsize (mem (h_user 9) (1048592 - 4))) = false ->
   bfree 1048592 (h_user 9) = Fault).
Proof. apply (bfree_accepts_bit0_words 1048592 (h_user 9) [107; 3986]); concrete. Defined.

(** C9 (counterexample): after [balloc(100)] returned 1048584, the program
    stores 2147483633 in its payload word 1048588; [bfree(1048592)] passes
    every check, 1048588 has bit 0 set, but the size read there sends the
    successor read 2 GiB past the region: the call faults instead of
    returning 0. *)
Lemma bfree_wild_size_faults :
  wf (h_user 2147483633) [107; 3986] /\ 1048592 mod 8 = 0 /\
  heap_start (h_user 2147483633) + 4 <= 1048592
    < heap_start (h_user 2147483633) + alloc_size (h_user 2147483633) /\
  Z.land (mem (h_user 2147483633) (1048592 - 4)) 1 = 1 /\
  bfree 1048592 (h_user 2147483633) = Fault.
Proof. concrete. Qed.

(** C10: before a successful [init_heap] ([heap_start] is NULL, nothing is
    mapped), [balloc] of a positive size and [coalesce] both read through
    the null [heap_start]: the call faults rather than returning. *)
Theorem uninit_balloc_coalesce_fault h :
  uninit h ->
  heap_start h = NULL /\
  (forall fuel n, 1 <= n -> balloc fuel n h = Fault) /\
  (forall fuel, coalesce fuel h = Fault).
Proof.
  intros Hu. split; [exact (proj2 (proj2 Hu)) | split].
  - intros fuel n Hn. exact (balloc_uninit fuel n h Hu Hn).
  - intros fuel. exact (coalesce_uninit fuel h Hu).
Qed.

Lemma uninit_balloc_coalesce_fault_witness :
  heap_start heap0 = NULL /\
  (forall fuel n, 1 <= n -> balloc fuel n heap0 = Fault) /\
  (forall fuel, coalesce fuel heap0 = Fault).
Proof. apply (uninit_balloc_coalesce_fault heap0). exact uninit_heap0. Defined.

(** ** Further properties of the allocator *)

(** What a call of [balloc] on an initialized heap did: nothing, or it
    placed the request in a free block of the decoded list. *)
Lemma balloc_cases fuel n h ws r h' :
  wf h ws -> n <= INT_MAX -> balloc fuel n h = Ok r h' ->
  (r = NULL /\ h' = h) \/
  (exists pre w post, ws = pre ++ w :: post /\ 1 <= n /\
     blockSize_of n = round_up8 (n + 4) /\ eligible (blockSize_of n) w /\
     r = heap_start h + sum_sizes pre + sizeof_blockHeader /\
     (exists ws', wf h' ws') /\ h' = with_mem h (mem h') /\
     Z.land (mem h' (heap_start h + sum_sizes pre)) 1 = 1 /\
     blockSize_of n <= hsize (mem h' (heap_start h + sum_sizes pre)) <= hsize w /\
     (forall y, y < heap_start h + sum_sizes pre \/ heap_start h + sum_sizes pre + hsize w < y ->
        mem h' y = mem h y)).
Proof.
  intros Hwf Hn Hb. pose proof Hb as Hb0.
  destruct (Z.ltb_spec n 1) as [Hlt | Hge].
  - unfold balloc in Hb. rewrite (proj2 (Z.ltb_lt n 1) Hlt) in Hb.
    injection Hb as <- <-. left. split; reflexivity.
  - pose proof Hwf as (H1 & H2 & H3 & H4 & H5 & H6 & H7).
    assert (Hnn : NULL <> NULL -> mapped h NULL = true /\ hsize (mem h NULL) = 0)
      by (intros []; reflexivity).
    unfold balloc in Hb. rewrite (proj2 (Z.ltb_ge n 1) Hge) in Hb. cbv zeta in Hb.
    rewrite (bind_Ok get_heap_start _ h _ h eq_refl) in Hb.
    destruct (scan_spec (blockSize_of n) _ ws fuel (heap_start h) NULL 0 h H6 H7
                (wf_covers _ _ Hwf) Hnn) as [Hs | [Hs _]].
    + destruct (pick_cases (blockSize_of n) ws (heap_start h) NULL 0)
        as [Hp | (y & w & Hin & Hel & Hp)]; rewrite Hp in Hs.
      * rewrite (bind_Ok _ _ _ _ _ Hs) in Hb. cbv beta in Hb. rewrite Z.eqb_refl in Hb.
        injection Hb as <- <-. left. split; reflexivity.
      * destruct (in_blocks_split _ _ _ _ Hin) as (pre & post & Hws & Hy). rewrite Hy in Hs.
        destruct (blockSize_of_spec n (conj Hge Hn)) as [[Hle Hbs] | [Hov _]].
        -- assert (Hb8 : 8 <= blockSize_of n)
             by (rewrite Hbs; apply blockSize_ge8; exact Hge).
           assert (Hbm : blockSize_of n mod 8 = 0)
             by (rewrite Hbs; apply round_up8_mult).
           destruct (balloc_place fuel n h ws pre w post Hwf Hws Hge Hb8 Hbm Hel Hs)
             as (h2 & ws2 & Hb2 & Hwf2 & Hh2 & Hbit & Hsz & Hfr).
           rewrite Hb2 in Hb0. injection Hb0 as <- <-.
           right. exists pre, w, post.
           repeat (split; [eassumption|]). split; [reflexivity|].
           split; [exists ws2; exact Hwf2|]. auto.
        -- pose proof (balloc_overflow fuel n h ws pre w post Hwf Hws (conj Hge Hn) (proj1 Hov)
                         (proj1 Hel) Hs) as Hf.
           rewrite Hf in Hb0. discriminate.
    + rewrite (bind_OutOfFuel _ _ _ Hs) in Hb. discriminate.
Qed.

(** The address of a block of the decoded list is [heap_start] plus a
    multiple of 8, and the block lies inside [heap_start, heap_start + alloc_size). *)
Lemma wf_block_at h ws pre w post :
  wf h ws -> ws = pre ++ w :: post ->
  sum_sizes pre mod 8 = 0 /\ 0 <= sum_sizes pre /\
  mem h (heap_start h + sum_sizes pre) = w /\ valid_hdr w /\
  In (heap_start h + sum_sizes pre, w) (blocks (heap_start h) ws) /\
  heap_start h + sum_sizes pre + hsize w <= heap_start h + alloc_size h.
Proof.
  intros Hwf Hws. pose proof Hwf as (_ & _ & _ & _ & _ & H6 & _).
  assert (Hin : In (heap_start h + sum_sizes pre, w) (blocks (heap_start h) ws))
    by (rewrite Hws, blocks_app; apply in_or_app; right; left; reflexivity).
  destruct (seg_blocks _ _ _ _ _ _ H6 Hin) as (Ha & Hb & Hm & Hv).
  rewrite Hws in H6. apply seg_app in H6. destruct H6 as [Hpre _].
  pose proof (seg_sum_mod8 _ _ _ _ Hpre). pose proof (seg_len _ _ _ _ Hpre).
  split; [assumption|]. split; [lia|]. split; [assumption|]. split; [assumption|].
  split; [assumption|]. lia.
Qed.

(** A call of [bfree] that passes its checks, on a header with bit 0 set
    whose successor word is accessible, returns 0. *)
Lemma bfree_success ptr h :
  bfree_rejects h ptr = false -> mapped h (ptr - sizeof_blockHeader) = true ->
  Z.land (mem h (ptr - sizeof_blockHeader)) 1 = 1 ->
  mapped h (ptr - sizeof_blockHeader + hsize (mem h (ptr - sizeof_blockHeader))) = true ->
  exists h', bfree ptr h = Ok 0 h'.
Proof.
  intros Hg Hm Hw Hnm.
  rewrite bfree_unfold, Hg. cbv zeta. set (block := ptr - sizeof_blockHeader) in *.
  rewrite (load_bind _ _ _ Hm), Hw. cbv beta. change (1 =? 0) with false. cbv iota.
  rewrite (store_seq _ _ _ _ Hm).
  set (m1 := upd (mem h) block (Z.land (mem h block) (Z.lnot 1))).
  rewrite (load_bind (with_mem h m1) _ _ Hm). cbn [mem with_mem].
  assert (Hm1 : m1 block = Z.land (mem h block) (Z.lnot 1)) by apply upd_eq.
  rewrite Hm1.
  change (Z.land (Z.land (mem h block) (Z.lnot 1)) (Z.lnot 3))
    with (hsize (Z.land (mem h block) (Z.lnot 1))).
  rewrite hsize_clear1.
  rewrite (load_bind (with_mem h m1) _ _ Hnm). cbn [mem with_mem].
  destruct (m1 (block + hsize (mem h block)) =? 1); cbn [negb].
  - eexists. reflexivity.
  - rewrite (store_seq (with_mem h m1) _ _ _ Hnm). eexists. reflexivity.
Qed.

(** The header word left by a successful [bfree]. *)
Lemma bfree_hdr_after ptr h h' :
  bfree ptr h = Ok 0 h' -> 8 <= hsize (mem h (ptr - sizeof_blockHeader)) ->
  mem h' (ptr - sizeof_blockHeader) = Z.land (mem h (ptr - sizeof_blockHeader)) (Z.lnot 1).
Proof.
  intros Hb H8. destruct (bfree_cases _ _ _ _ Hb) as [[E _] | (_ & _ & _ & _ & ->)]; [discriminate|].
  set (block := ptr - sizeof_blockHeader) in *.
  set (m1 := upd (mem h) block (Z.land (mem h block) (Z.lnot 1))).
  rewrite hsize_clear1. cbn [mem with_mem].
  destruct (m1 (block + hsize (mem h block)) =? 1); [apply upd_eq|].
  rewrite upd_ne by lia. apply upd_eq.
Qed.

(** X1: with [size < 1], or when no free block is at least the rounded size,
    [balloc] returns NULL and leaves the heap as it was. *)
Theorem balloc_no_fit fuel n h ws :
  wf h ws -> n <= INT_MAX - 11 -> (length ws <= fuel)%nat ->
  (n < 1 \/ forall y w, In (y, w) (blocks (heap_start h) ws) -> ~ eligible (round_up8 (n + 4)) w) ->
  balloc fuel n h = Ok NULL h.
Proof.
  intros Hwf Hn Hf Hno.
  destruct (Z.ltb_spec n 1) as [Hlt | Hge];
    [unfold balloc; rewrite (proj2 (Z.ltb_lt n 1) Hlt); reflexivity|].
  destruct Hno as [Hlt | Hno]; [lia|].
  pose proof Hwf as (H1 & H2 & H3 & H4 & H5 & H6 & H7).
  destruct (blockSize_of_spec n ltac:(unfold INT_MAX in *; lia)) as [[Hle Hbs] | [Hov _]];
    [| exfalso; unfold round_up8 in Hov; liam].
  assert (Hnn : NULL <> NULL -> mapped h NULL = true /\ hsize (mem h NULL) = 0)
    by (intros []; reflexivity).
  unfold balloc. rewrite (proj2 (Z.ltb_ge n 1) Hge). cbv zeta.
  rewrite (bind_Ok get_heap_start _ h _ h eq_refl).
  destruct (scan_spec (blockSize_of n) _ ws fuel (heap_start h) NULL 0 h H6 H7
              (wf_covers _ _ Hwf) Hnn) as [Hs | [_ Hlt]]; [|lia].
  destruct (pick_cases (blockSize_of n) ws (heap_start h) NULL 0)
    as [Hp | (y & w & Hin & Hel & _)].
  - rewrite Hp in Hs. rewrite (bind_Ok _ _ _ _ _ Hs). cbv beta. rewrite Z.eqb_refl. reflexivity.
  - rewrite Hbs in Hel. exfalso. exact (Hno y w Hin Hel).
Qed.

Lemma balloc_no_fit_witness : balloc 100 5000 h_A = Ok NULL h_A.
Proof.
  apply (balloc_no_fit 100 5000 h_A [107; 3986]); [concrete | unfold INT_MAX; lia | cbn; lia |].
  right. intros y w Hin Hel. destruct Hel as [_ Hle]. vm_compute in Hin.
  destruct Hin as [E | [E | []]]; injection E as <- <-; vm_compute in Hle; apply Hle; reflexivity.
Defined.

(** X2: a non-NULL result of [balloc(n)] is the payload of a block that was
    free in the decoded list, that is now marked allocated and holds at least
    [n + 4] bytes (at most the free block's size); the returned payload
    pointer is 4 bytes past an 8-byte boundary relative to [heap_start], so the
    block's header is at a multiple of 8 from [heap_start]; the heap stays
    well formed. *)
Theorem balloc_returns_free_block fuel n h ws r h' :
  wf h ws -> n <= INT_MAX -> balloc fuel n h = Ok r h' -> r <> NULL ->
  In (r - sizeof_blockHeader, mem h (r - sizeof_blockHeader)) (blocks (heap_start h) ws) /\
  is_free (mem h (r - sizeof_blockHeader)) /\
  (r - heap_start h) mod 8 = sizeof_blockHeader /\
  Z.land (mem h' (r - sizeof_blockHeader)) 1 = 1 /\
  n + sizeof_blockHeader <= hsize (mem h' (r - sizeof_blockHeader))
    <= hsize (mem h (r - sizeof_blockHeader)) /\
  exists ws', wf h' ws'.
Proof.
  intros Hwf Hn Hb Hr.
  destruct (balloc_cases _ _ _ _ _ _ Hwf Hn Hb)
    as [[E _] | (pre & w & post & Hws & Hge & Hbs & Hel & -> & Hwf' & _ & Hbit & Hsz & _)];
    [contradiction|].
  replace (heap_start h + sum_sizes pre + sizeof_blockHeader - sizeof_blockHeader)
    with (heap_start h + sum_sizes pre) by lia.
  destruct (wf_block_at _ _ _ _ _ Hwf Hws) as (Hmod & _ & Hmw & _ & Hin & _).
  rewrite Hmw. pose proof (round_up8_bounds (n + 4)).
  split; [exact Hin|]. split; [exact (proj1 Hel)|].
  split; [unfold sizeof_blockHeader; liam|]. split; [exact Hbit|].
  split; [unfold sizeof_blockHeader; lia | exact Hwf'].
Qed.

Lemma balloc_returns_free_block_witness :
  In (1048584 - sizeof_blockHeader, mem h_freed (1048584 - sizeof_blockHeader))
     (blocks (heap_start h_freed) [26; 25; 4042]) /\
  is_free (mem h_freed (1048584 - sizeof_blockHeader)) /\
  (1048584 - heap_start h_freed) mod 8 = sizeof_blockHeader /\
  Z.land (mem h_split (1048584 - sizeof_blockHeader)) 1 = 1 /\
  4 + sizeof_blockHeader <= hsize (mem h_split (1048584 - sizeof_blockHeader))
    <= hsize (mem h_freed (1048584 - sizeof_blockHeader)) /\
  exists ws', wf h_split ws'.
Proof.
  apply (balloc_returns_free_block 100 4 h_freed [26; 25; 4042]);
    [concrete | unfold INT_MAX; lia | concrete | discriminate].
Defined.

(** X3: [balloc] changes no global, and no word outside the free block it
    takes (from its header to the header of the block after it, both
    included); when it returns NULL it changes nothing. *)
Theorem balloc_frame fuel n h ws r h' :
  wf h ws -> n <= INT_MAX -> balloc fuel n h = Ok r h' ->
  h' = with_mem h (mem h') /\ (r = NULL -> h' = h) /\
  (r <> NULL -> forall y,
     y < r - sizeof_blockHeader \/
     r - sizeof_blockHeader + hsize (mem h (r - sizeof_blockHeader)) < y ->
     mem h' y = mem h y).
Proof.
  intros Hwf Hn Hb.
  destruct (balloc_cases _ _ _ _ _ _ Hwf Hn Hb)
    as [[-> ->] | (pre & w & post & Hws & Hge & Hbs & Hel & -> & _ & Hh' & _ & _ & Hfr)].
  - split; [symmetry; apply with_mem_id | split; [reflexivity | intros []; reflexivity]].
  - destruct (wf_block_at _ _ _ _ _ Hwf Hws) as (_ & Hpos & Hmw & _).
    pose proof Hwf as (_ & H2 & _).
    split; [exact Hh'|]. split; [unfold sizeof_blockHeader, NULL; lia|].
    intros _ y. replace (heap_start h + sum_sizes pre + sizeof_blockHeader - sizeof_blockHeader)
      with (heap_start h + sum_sizes pre) by lia.
    rewrite Hmw. apply Hfr.
Qed.

Lemma balloc_frame_witness :
  h_split = with_mem h_freed (mem h_split) /\ (1048584 = NULL -> h_split = h_freed) /\
  (1048584 <> NULL -> forall y,
     y < 1048584 - sizeof_blockHeader \/
     1048584 - sizeof_blockHeader + hsize (mem h_freed (1048584 - sizeof_blockHeader)) < y ->
     mem h_split y = mem h_freed y).
Proof. apply (balloc_frame 100 4 h_freed [26; 25; 4042]); [concrete | unfold INT_MAX; lia | concrete]. Defined.

(** X4: on a heap whose [heap_start + 4] is 8-aligned (as with a page-aligned
    region), the pointer returned by [balloc] can be given back to [bfree]:
    it returns 0, clears only the allocated bit of the block's header, and the
    heap stays well formed. *)
Theorem balloc_bfree_roundtrip fuel n h ws r h' :
  wf h ws -> (heap_start h + sizeof_blockHeader) mod 8 = 0 -> n <= INT_MAX ->
  balloc fuel n h = Ok r h' -> r <> NULL ->
  exists h'', bfree r h' = Ok 0 h'' /\
    mem h'' (r - sizeof_blockHeader) = Z.land (mem h' (r - sizeof_blockHeader)) (Z.lnot 1) /\
    exists ws'', wf h'' ws''.
Proof.
  intros Hwf Ha Hn Hb Hr.
  destruct (balloc_cases _ _ _ _ _ _ Hwf Hn Hb)
    as [[E _] | (pre & w & post & Hws & Hge & Hbs & Hel & -> & (ws' & Hwf') & Hh' & Hbit & Hsz & _)];
    [contradiction|].
  destruct (wf_block_at _ _ _ _ _ Hwf Hws) as (Hmod & Hpos & Hmw & Hv & Hin & Hend).
  pose proof Hwf as (_ & H2 & _).
  pose proof (blockSize_ge8 n Hge) as H8. rewrite <- Hbs in H8.
  set (b := heap_start h + sum_sizes pre) in *.
  replace (b + sizeof_blockHeader - sizeof_blockHeader) with b by lia.
  assert (Hhs : heap_start h' = heap_start h) by (rewrite Hh'; reflexivity).
  assert (Has : alloc_size h' = alloc_size h) by (rewrite Hh'; reflexivity).
  assert (Hcov : covers h' (heap_start h) (heap_start h + alloc_size h)).
  { intros y Hy. rewrite Hh', mapped_with_mem. apply (wf_covers _ _ Hwf). exact Hy. }
  assert (Hg : bfree_rejects h' (b + sizeof_blockHeader) = false).
  { unfold bfree_rejects. rewrite Hhs, Has.
    assert (Hu : to_ulong (b + sizeof_blockHeader) mod 8 = 0)
      by (unfold to_ulong, b, sizeof_blockHeader in *; liam).
    rewrite Hu. unfold NULL, sizeof_blockHeader in *.
    rewrite (proj2 (Z.eqb_neq _ 0)) by lia.
    rewrite (proj2 (Z.ltb_ge _ _)) by lia. rewrite Z.geb_leb, (proj2 (Z.leb_gt _ _)) by lia.
    reflexivity. }
  assert (Hm : mapped h' (b + sizeof_blockHeader - sizeof_blockHeader) = true)
    by (apply Hcov; unfold sizeof_blockHeader; lia).
  replace (b + sizeof_blockHeader - sizeof_blockHeader) with b in * by lia.
  assert (Hnm : mapped h' (b + hsize (mem h' b)) = true) by (apply Hcov; lia).
  destruct (bfree_success (b + sizeof_blockHeader) h') as [h'' Hf];
    [exact Hg | replace (b + sizeof_blockHeader - sizeof_blockHeader) with b by lia; exact Hm
    | replace (b + sizeof_blockHeader - sizeof_blockHeader) with b by lia; exact Hbit
    | replace (b + sizeof_blockHeader - sizeof_blockHeader) with b by lia; exact Hnm |].
  exists h''. split; [exact Hf|]. split.
  - pose proof (bfree_hdr_after _ _ _ Hf) as Hh.
    replace (b + sizeof_blockHeader - sizeof_blockHeader) with b in Hh by lia.
    apply Hh. lia.
  - exact (bfree_wf _ _ _ _ _ Hwf' Hf).
Qed.

Lemma balloc_bfree_roundtrip_witness :
  exists h'', bfree 1048584 h_split = Ok 0 h'' /\
    mem h'' (1048584 - sizeof_blockHeader)
      = Z.land (mem h_split (1048584 - sizeof_blockHeader)) (Z.lnot 1) /\
    exists ws'', wf h'' ws''.
Proof.
  apply (balloc_bfree_roundtrip 100 4 h_freed [26; 25; 4042]);
    [concrete | reflexivity | unfold INT_MAX; lia | concrete | discriminate].
Defined.

Lemma bit1_clear2 w : Z.land (Z.land w (Z.lnot 2)) 2 = 0.
Proof. bitwise. Qed.

(** X5: [bfree] returns -1 and leaves the heap unchanged, or returns 0 after
    freeing an allocated block: it clears bit 0 of the header, keeps its size,
    leaves the word after the block equal to the end mark 1 or with bit 1
    cleared, and writes no other word and no global. *)
Theorem bfree_effect ptr h r h' :
  bfree ptr h = Ok r h' ->
  h' = with_mem h (mem h') /\
  ((r = -1 /\ h' = h) \/
   (r = 0 /\
    Z.land (mem h (ptr - sizeof_blockHeader)) 1 = 1 /\
    Z.land (mem h' (ptr - sizeof_blockHeader)) 1 = 0 /\
    hsize (mem h' (ptr - sizeof_blockHeader)) = hsize (mem h (ptr - sizeof_blockHeader)) /\
    (mem h' (ptr - sizeof_blockHeader + hsize (mem h (ptr - sizeof_blockHeader))) = 1 \/
     Z.land (mem h' (ptr - sizeof_blockHeader + hsize (mem h (ptr - sizeof_blockHeader)))) 2 = 0) /\
    (forall y, y <> ptr - sizeof_blockHeader ->
       y <> ptr - sizeof_blockHeader + hsize (mem h (ptr - sizeof_blockHeader)) ->
       mem h' y = mem h y))).
Proof.
  intros Hb. pose proof Hb as Hb0.
  destruct (bfree_cases _ _ _ _ Hb) as [[-> ->] | (-> & Hg & Hm & Hnm & ->)].
  - split; [symmetry; apply with_mem_id | left; split; reflexivity].
  - split; [reflexivity|]. right. split; [reflexivity|].
    assert (Hw : Z.land (mem h (ptr - sizeof_blockHeader)) 1 = 1).
    { rewrite par_arith. pose proof (Z.mod_pos_bound (mem h (ptr - sizeof_blockHeader)) 2).
      destruct (Z.eq_dec (mem h (ptr - sizeof_blockHeader) mod 2) 0) as [E|E]; [|lia].
      rewrite (bfree_already_free ptr h Hg Hm (eq_trans (par_arith _) E)) in Hb0. discriminate. }
    set (block := ptr - sizeof_blockHeader) in *.
    set (w := mem h block) in *.
    rewrite hsize_clear1. cbn [mem with_mem].
    set (nb := block + hsize w).
    set (m1 := upd (mem h) block (Z.land w (Z.lnot 1))).
    assert (Hm1 : m1 block = Z.land w (Z.lnot 1)) by apply upd_eq.
    assert (Hm1' : forall y, y <> block -> m1 y = mem h y) by (intros y Hy; unfold m1; apply upd_ne; exact Hy).
    split; [exact Hw|].
    destruct (m1 nb =? 1) eqn:E1.
    + apply Z.eqb_eq in E1. rewrite Hm1.
      split; [apply par_clear1|]. split; [apply hsize_clear1|].
      split; [left; exact E1 | intros y Hy _; apply Hm1', Hy].
    + destruct (Z.eq_dec nb block) as [Eb | Eb].
      * rewrite Eb, upd_eq, Hm1.
        split; [rewrite par_clear2; apply par_clear1|].
        split; [rewrite hsize_clear2; apply hsize_clear1|].
        split; [right; apply bit1_clear2|].
        intros y Hy _. rewrite upd_ne by exact Hy. apply Hm1', Hy.
      * rewrite (upd_ne _ nb _ block) by (intros E; apply Eb; symmetry; exact E).
        rewrite Hm1. split; [apply par_clear1|]. split; [apply hsize_clear1|].
        split; [right; rewrite upd_eq; apply bit1_clear2|].
        intros y Hy Hy'. rewrite upd_ne by exact Hy'. apply Hm1', Hy.
Qed.

Lemma bfree_effect_witness :
  h_freed = with_mem h_two (mem h_freed) /\
  ((0 = -1 /\ h_freed = h_two) \/
   (0 = 0 /\
    Z.land (mem h_two (1048584 - sizeof_blockHeader)) 1 = 1 /\
    Z.land (mem h_freed (1048584 - sizeof_blockHeader)) 1 = 0 /\
    hsize (mem h_freed (1048584 - sizeof_blockHeader))
      = hsize (mem h_two (1048584 - sizeof_blockHeader)) /\
    (mem h_freed (1048584 - sizeof_blockHeader + hsize (mem h_two (1048584 - sizeof_blockHeader))) = 1 \/
     Z.land (mem h_freed (1048584 - sizeof_blockHeader
                          + hsize (mem h_two (1048584 - sizeof_blockHeader)))) 2 = 0) /\
    (forall y, y <> 1048584 - sizeof_blockHeader ->
       y <> 1048584 - sizeof_blockHeader + hsize (mem h_two (1048584 - sizeof_blockHeader)) ->
       mem h_freed y = mem h_two y))).
Proof. apply (bfree_effect 1048584 h_two 0 h_freed). vm_compute. reflexivity. Defined.



(** The padding of [init_heap] rounds a positive size up to the next
    multiple of the page size. *)
Lemma padded_eq n pg P :
  0 < n -> 0 < pg -> P mod pg = 0 -> n <= P < n + pg ->
  n + (pg - n mod pg) mod pg = P.
Proof.
  intros Hn Hpg HP HPb.
  pose proof (Z.mod_pos_bound n pg Hpg) as Hq.
  pose proof (Z.mod_pos_bound (pg - n mod pg) pg Hpg) as Hq2.
  assert (Hj : exists j, n + (pg - n mod pg) mod pg = pg * j).
  { exists (n / pg + 1 - (pg - n mod pg) / pg).
    pose proof (Z.div_mod n pg ltac:(lia)).
    pose proof (Z.div_mod (pg - n mod pg) pg ltac:(lia)). nia. }
  destruct Hj as [j Hj].
  pose proof (Z.div_mod P pg ltac:(lia)) as HPd. rewrite HP, Z.add_0_r in HPd.
  assert (Hlo : n <= pg * j < n + pg) by lia.
  assert (Hd : P / pg - j < 1 /\ j - P / pg < 1) by (split; nia).
  assert (P / pg = j) by lia. lia.
Qed.

(** X7: a call of [init_heap] after one that succeeded, or with a size that
    is not positive, returns -1 and changes nothing. *)
Theorem init_heap_rejects o n h :
  allocated_once h <> 0 \/ n <= 0 -> init_heap o n h = Ok (-1) h.
Proof.
  intros Hc. unfold init_heap.
  rewrite (bind_Ok get_allocated_once _ h _ h eq_refl). cbv beta.
  destruct (Z.eqb_spec 0 (allocated_once h)) as [E | E]; [|reflexivity].
  destruct Hc as [Hc | Hc]; [congruence|].
  cbv [negb]. rewrite (proj2 (Z.leb_le n 0) Hc). reflexivity.
Qed.

Lemma init_heap_rejects_witness : init_heap linux 4096 h_init = Ok (-1) h_init.
Proof. apply init_heap_rejects. left. vm_compute. discriminate. Defined.

(** X8: on the first call with [1 <= sizeOfRegion], when the size rounded up
    to the page size, [P], fits in an [int] and [mmap] gives the region
    [base]: [init_heap] returns 0, the region is [P] zero bytes at [base],
    [heap_start = base + 4], [alloc_size = P - 8], and memory holds one free
    block of size [P - 8] whose header has bit 1 set ([P - 6]), its footer
    [P - 8] in the block's last word, and the end mark 1 after it; nothing
    else is written, and the heap is well formed with this single block. *)
Theorem init_heap_layout o n h P base :
  os_ok o -> uninit h -> 1 <= n ->
  P mod pagesize o = 0 -> n <= P < n + pagesize o -> P <= INT_MAX ->
  os_mmap o P = Some base ->
  exists h', init_heap o n h = Ok 0 h' /\
    region h' = Some (base, P) /\ heap_start h' = base + sizeof_blockHeader /\
    alloc_size h' = P - 8 /\ allocated_once h' = 1 /\
    mem h' (base + sizeof_blockHeader) = P - 6 /\
    mem h' (base + P - 8) = P - 8 /\ mem h' (base + P - 4) = 1 /\
    (forall y, y <> base + sizeof_blockHeader -> y <> base + P - 8 -> y <> base + P - 4 ->
       mem h' y = 0) /\
    wf h' [P - 6].
Proof.
  intros (Hpg & Hpg8 & Hmm) (Ho & Hreg & Hhs) Hn HPm HPb HPi Hmp.
  assert (HP : n + (pagesize o - n mod pagesize o) mod pagesize o = P)
    by (apply padded_eq; lia).
  assert (HP16 : 16 <= P).
  { pose proof (Z.div_mod P (pagesize o) ltac:(lia)) as Hd. rewrite HPm, Z.add_0_r in Hd.
    assert (1 <= P / pagesize o) by nia. nia. }
  assert (HP8 : P mod 8 = 0).
  { apply Z.mod_divide; [lia|]. apply (Z.divide_trans _ (pagesize o)).
    - apply Z.mod_divide; [lia | exact Hpg8].
    - apply Z.mod_divide; [lia | exact HPm]. }
  destruct (Hmm _ _ Hmp) as [Hb0 _].
  unfold init_heap.
  rewrite (bind_Ok get_allocated_once _ h _ h eq_refl). cbv beta.
  rewrite Ho. change (negb (0 =? 0)) with false. cbv iota.
  rewrite (proj2 (Z.leb_gt n 0)) by lia. cbv zeta.
  rewrite (Z.rem_mod_nonneg n (pagesize o)) by lia.
  pose proof (Z.mod_pos_bound n (pagesize o) ltac:(lia)).
  rewrite (Z.rem_mod_nonneg (pagesize o - n mod pagesize o) (pagesize o)) by lia.
  rewrite HP, (to_int_small P) by lia'. rewrite (to_ulong_small P) by lia'.
  rewrite (bind_Ok (set_alloc_size P) _ h _ _ eq_refl). cbv beta. rewrite Hmp.
  rewrite (bind_Ok (map_region base P) _ _ _ _ eq_refl). cbv beta.
  rewrite (to_int_small (P - 8)) by lia'.
  rewrite (bind_Ok (set_globals _ _ _) _ _ _ _ eq_refl). cbv beta.
  rewrite store_seq by mapped_tac.
  rewrite store_seq by mapped_tac.
  rewrite load_bind by mapped_tac.
  rewrite store_seq by mapped_tac.
  rewrite store_seq by mapped_tac.
  cbn [with_mem mem heap_start alloc_size allocated_once region].
  set (hs := base + sizeof_blockHeader).
  rewrite upd_eq, (to_int_small (P - 8 + 2)) by lia'.
  eexists. split; [reflexivity|].
  cbn [with_mem mem heap_start alloc_size allocated_once region].
  assert (Hh6 : hsize (P - 8 + 2) = P - 8) by (rewrite hsize_arith; liam).
  assert (Hmem : forall y, upd (upd (upd (upd (fun _ => 0) (hs + (P - 8)) 1) hs (P - 8)) hs
                                  (P - 8 + 2)) (hs + (P - 8) - 4) (P - 8) y =
                   if y =? hs then P - 8 + 2 else if y =? hs + (P - 8) - 4 then P - 8
                   else if y =? hs + (P - 8) then 1 else 0).
  { intros y. unfold upd.
    destruct (Z.eqb_spec y hs), (Z.eqb_spec y (hs + (P - 8) - 4)),
      (Z.eqb_spec y (hs + (P - 8))); unfold hs, sizeof_blockHeader in *; lia. }
  rewrite !Hmem.
  assert (Hhs' : hs = base + 4) by reflexivity.
  split; [reflexivity|]. split; [reflexivity|]. split; [reflexivity|]. split; [reflexivity|].
  split; [rewrite Z.eqb_refl; lia|].
  split; [rewrite (proj2 (Z.eqb_neq _ hs)) by lia; rewrite (proj2 (Z.eqb_eq _ _)) by lia; reflexivity|].
  split; [rewrite (proj2 (Z.eqb_neq _ hs)) by lia;
          rewrite (proj2 (Z.eqb_neq _ (hs + (P - 8) - 4))) by lia;
          rewrite (proj2 (Z.eqb_eq _ _)) by lia; reflexivity|].
  split.
  - intros y H1 H2 H3. rewrite Hmem.
    rewrite (proj2 (Z.eqb_neq _ hs)) by (unfold sizeof_blockHeader in *; lia).
    rewrite (proj2 (Z.eqb_neq _ (hs + (P - 8) - 4))) by lia.
    rewrite (proj2 (Z.eqb_neq _ (hs + (P - 8)))) by lia. reflexivity.
  - unfold wf; cbn [with_mem mem heap_start alloc_size allocated_once region].
    split; [reflexivity|]. split; [unfold sizeof_blockHeader in *; lia|].
    split; [unfold sizeof_blockHeader in *; f_equal; f_equal; lia|].
    split; [lia|]. split; [lia'|]. split.
    + cbn [seg]. rewrite Hmem, Z.eqb_refl. split; [lia|].
      replace (P - 6) with (P - 8 + 2) by lia. rewrite Hh6.
      split; [unfold valid_hdr; rewrite Hh6; split; [lia|]; split; [lia | liam]|]. reflexivity.
    + rewrite Hmem. rewrite (proj2 (Z.eqb_neq _ hs)) by lia.
      rewrite (proj2 (Z.eqb_neq _ (hs + (P - 8) - 4))) by lia. rewrite Z.eqb_refl. reflexivity.
Qed.

Lemma init_heap_layout_witness :
  exists h', init_heap linux 100 heap0 = Ok 0 h' /\
    region h' = Some (1048576, 4096) /\ heap_start h' = 1048576 + sizeof_blockHeader /\
    alloc_size h' = 4096 - 8 /\ allocated_once h' = 1 /\
    mem h' (1048576 + sizeof_blockHeader) = 4096 - 6 /\
    mem h' (1048576 + 4096 - 8) = 4096 - 8 /\ mem h' (1048576 + 4096 - 4) = 1 /\
    (forall y, y <> 1048576 + sizeof_blockHeader -> y <> 1048576 + 4096 - 8 ->
       y <> 1048576 + 4096 - 4 -> mem h' y = 0) /\
    wf h' [4096 - 6].
Proof.
  apply (init_heap_layout linux 100 heap0 4096 1048576);
    [exact linux_ok | concrete | lia | reflexivity | cbn; lia | unfold INT_MAX; lia | reflexivity].
Defined.

(** X9: when the rounded size [P] does not fit in an [int], or [mmap] fails,
    the first call of [init_heap] returns -1 and the heap stays uninitialized,
    but [alloc_size] has already been overwritten with [P] converted to
    [int] (negative when [P] exceeds [INT_MAX]). *)
Theorem init_heap_mmap_fails o n h P :
  os_ok o -> uninit h -> 1 <= n <= INT_MAX ->
  P mod pagesize o = 0 -> n <= P < n + pagesize o ->
  (P <= INT_MAX -> os_mmap o P = None) ->
  init_heap o n h =
  Ok (-1) {| heap_start := heap_start h; alloc_size := to_int P;
             allocated_once := allocated_once h; region := region h; mem := mem h |}.
Proof.
  intros (Hpg & Hpg8 & Hmm) (Ho & Hreg & Hhs) Hn HPm HPb Hmp.
  assert (HP : n + (pagesize o - n mod pagesize o) mod pagesize o = P)
    by (apply padded_eq; lia).
  unfold init_heap.
  rewrite (bind_Ok get_allocated_once _ h _ h eq_refl). cbv beta.
  rewrite Ho. change (negb (0 =? 0)) with false. cbv iota.
  rewrite (proj2 (Z.leb_gt n 0)) by lia. cbv zeta.
  rewrite (Z.rem_mod_nonneg n (pagesize o)) by lia.
  pose proof (Z.mod_pos_bound n (pagesize o) ltac:(lia)).
  rewrite (Z.rem_mod_nonneg (pagesize o - n mod pagesize o) (pagesize o)) by lia.
  rewrite HP. rewrite (bind_Ok (set_alloc_size (to_int P)) _ h _ _ eq_refl). cbv beta.
  destruct (Z_le_gt_dec P INT_MAX) as [HPi | HPo].
  - rewrite (to_int_small P) by lia'. rewrite (to_ulong_small P) by lia'.
    rewrite (Hmp HPi), Ho. reflexivity.
  - rewrite (to_int_high P) by lia'. rewrite (to_ulong_neg (P - 2 ^ 32)) by lia'.
    destruct (os_mmap o (P - 2 ^ 32 + 2 ^ 64)) as [base|] eqn:Hm; [|rewrite Ho; reflexivity].
    destruct (Hmm _ _ Hm) as [_ Hbig]. lia.
Qed.

Lemma init_heap_mmap_fails_witness :
  init_heap linux INT_MAX heap0 =
  Ok (-1) {| heap_start := NULL; alloc_size := to_int (2 ^ 31);
             allocated_once := 0; region := None; mem := mem heap0 |}.
Proof.
  apply (init_heap_mmap_fails linux INT_MAX heap0 (2 ^ 31));
    [exact linux_ok | concrete | unfold INT_MAX; lia | reflexivity
    | unfold INT_MAX; cbn; lia | intros H; unfold INT_MAX in H; lia].
Defined.

Lemma land2_mod4 x : Z.land x 2 = Z.land (x mod 4) 2.
Proof.
  change 4 with (2 ^ 2). rewrite <- Z.land_ones by lia.
  rewrite <- Z.land_assoc. reflexivity.
Qed.

(** How [disp_heap] decodes a header word with its arithmetic. *)
Lemma disp_bits w : 0 <= w ->
  let t := if Z.land w 1 =? 1 then w - 1 else w in
  (Z.land t 2 =? 2) = prev_alloc_bit w /\
  (if Z.land t 2 =? 2 then t - 2 else t) = hsize w.
Proof.
  intros H. cbv zeta. unfold prev_alloc_bit. rewrite hsize_arith, par_arith.
  rewrite <- (Z.mod_pow2_bits_low w 2 1) by lia. change (2 ^ 2) with 4.
  pose proof (Z.mod_pos_bound w 4).
  assert (Hr : w mod 4 = 0 \/ w mod 4 = 1 \/ w mod 4 = 2 \/ w mod 4 = 3) by lia.
  destruct Hr as [E | [E | [E | E]]].
  - replace (w mod 2) with 0 by liam. cbn [Z.eqb Pos.eqb].
    rewrite land2_mod4, E. cbn. lia.
  - replace (w mod 2) with 1 by liam. cbn [Z.eqb Pos.eqb].
    rewrite land2_mod4. replace ((w - 1) mod 4) with 0 by liam. rewrite E. cbn. lia.
  - replace (w mod 2) with 0 by liam. cbn [Z.eqb Pos.eqb].
    rewrite land2_mod4, E. cbn. lia.
  - replace (w mod 2) with 1 by liam. cbn [Z.eqb Pos.eqb].
    rewrite land2_mod4. replace ((w - 1) mod 4) with 2 by liam. rewrite E. cbn. lia.
Qed.

Lemma disp_loop_spec e : forall ws fuel h k a u f,
  seg (mem h) a e ws -> mem h e = 1 -> covers h a e -> (length ws <= fuel)%nat ->
  disp_loop fuel k a u f h = Ok (block_rows k a ws, (u + used_bytes ws, f + free_bytes ws)) h.
Proof.
  induction ws as [|w t IH]; intros fuel h k a u f Hs He Hc Hl.
  - simpl in Hs. subst a. destruct fuel; unfold disp_loop; fold disp_loop;
      rewrite (load_bind _ _ _ (Hc e ltac:(lia))), He; cbn; rewrite !Z.add_0_r; reflexivity.
  - destruct Hs as (Hma & Hv & Hs). pose proof (seg_sum _ _ _ _ Hs) as He'.
    pose proof (seg_len _ _ _ _ Hs). pose proof Hv as (Hw0 & Hw8 & _).
    destruct fuel as [|fuel']; [cbn in Hl; lia|].
    unfold disp_loop; fold disp_loop.
    rewrite (load_bind _ _ _ (Hc a ltac:(lia))), Hma.
    rewrite (proj2 (Z.eqb_neq w 1)) by (apply valid_ne1, Hv). cbv iota zeta.
    destruct (disp_bits w Hw0) as [Hp Hsz]. cbv zeta in Hp, Hsz.
    rewrite Hsz, Hp.
    rewrite (bind_Ok _ _ _ _ _
               (IH fuel' h (k + 1) (a + hsize w) _ _ Hs He
                  ltac:(intros y Hy; apply Hc; lia) ltac:(cbn in Hl; lia))).
    cbn [fst snd block_rows used_bytes free_bytes ret].
    destruct (Z.land w 1 =? 1); unfold ret; rewrite ?Z.add_0_l, !Z.add_assoc; reflexivity.
Qed.

Lemma used_free_sum ws : used_bytes ws + free_bytes ws = sum_sizes ws.
Proof.
  induction ws as [|w t IH]; [reflexivity|]. cbn.
  destruct (Z.land w 1 =? 1); lia.
Qed.

(** X10: on an initialized heap, [disp_heap] changes nothing and reports one
    row per block in address order, numbered from 1, each with its header
    address as begin, begin + size - 1 as end, its size and its two status
    bits; the used and free totals are the sizes of the allocated and of the
    free blocks, and they add up to [alloc_size]. *)
Theorem disp_heap_report fuel h ws :
  wf h ws -> (length ws <= fuel)%nat ->
  disp_heap fuel h = Ok (block_rows 1 (heap_start h) ws, (used_bytes ws, free_bytes ws)) h /\
  used_bytes ws + free_bytes ws = alloc_size h.
Proof.
  intros Hwf Hl. pose proof Hwf as (_ & _ & _ & _ & _ & H6 & H7). split.
  - unfold disp_heap. rewrite (bind_Ok get_heap_start _ h _ h eq_refl). cbv beta.
    exact (disp_loop_spec _ ws fuel h 1 (heap_start h) 0 0 H6 H7 (wf_covers _ _ Hwf) Hl).
  - rewrite used_free_sum. pose proof (seg_sum _ _ _ _ H6). lia.
Qed.

Lemma disp_heap_report_witness :
  disp_heap 10 h_pair_freed =
    Ok (block_rows 1 (heap_start h_pair_freed) [26; 24; 25; 4018],
        (used_bytes [26; 24; 25; 4018], free_bytes [26; 24; 25; 4018])) h_pair_freed /\
  used_bytes [26; 24; 25; 4018] + free_bytes [26; 24; 25; 4018] = alloc_size h_pair_freed.
Proof. apply disp_heap_report; [concrete | cbn; lia]. Defined.

(** X11: [coalesce] never moves, resizes or frees an allocated block: the
    allocated blocks (address and size) are the same before and after, and so
    are the total free and the total used bytes; it returns 0 and the heap
    stays well formed. *)
Theorem coalesce_keeps_allocated fuel h ws r h' :
  wf h ws -> coalesce fuel h = Ok r h' ->
  r = 0 /\ exists ws', wf h' ws' /\
    alloc_blocks (heap_start h') ws' = alloc_blocks (heap_start h) ws /\
    free_bytes ws' = free_bytes ws /\ used_bytes ws' = used_bytes ws.
Proof.
  intros Hwf Hc.
  destruct (coalesce_spec _ _ _ _ _ Hwf Hc) as (Hr & ws' & Hwf' & _ & Hh' & Hal & Hfb).
  split; [exact Hr|]. exists ws'.
  assert (Hhs : heap_start h' = heap_start h) by (rewrite Hh'; reflexivity).
  assert (Has : alloc_size h' = alloc_size h) by (rewrite Hh'; reflexivity).
  pose proof Hwf as (_ & _ & _ & _ & _ & H6 & _).
  pose proof Hwf' as (_ & _ & _ & _ & _ & H6' & _).
  pose proof (seg_sum _ _ _ _ H6). pose proof (seg_sum _ _ _ _ H6').
  pose proof (used_free_sum ws). pose proof (used_free_sum ws').
  rewrite Hhs. split; [exact Hwf'|]. split; [exact Hal|]. split; [exact Hfb|]. lia.
Qed.

Lemma coalesce_keeps_allocated_witness :
  0 = 0 /\ exists ws', wf h_coal ws' /\
    alloc_blocks (heap_start h_coal) ws' = alloc_blocks (heap_start h_pair_freed) [26; 24; 25; 4018] /\
    free_bytes ws' = free_bytes [26; 24; 25; 4018] /\
    used_bytes ws' = used_bytes [26; 24; 25; 4018].
Proof.
  apply (coalesce_keeps_allocated 100 h_pair_freed [26; 24; 25; 4018]); concrete.
Defined.

(** X12: on an initialized heap, with a scan budget of at least the number of
    blocks, [balloc(n)] for any [n <= INT_MAX - 11] (the requests whose rounded
    block size fits in an [int]) never faults: it returns NULL or a pointer, and
    the heap stays well formed. *)
Theorem balloc_no_fault fuel n h ws :
  wf h ws -> n <= INT_MAX - 11 -> (length ws <= fuel)%nat ->
  exists r h', balloc fuel n h = Ok r h' /\ exists ws', wf h' ws'.
Proof.
  intros Hwf Hn Hf.
  destruct (Z.ltb_spec n 1) as [Hlt | Hge].
  - exists NULL, h. unfold balloc. rewrite (proj2 (Z.ltb_lt n 1) Hlt).
    split; [reflexivity | exists ws; exact Hwf].
  - pose proof Hwf as (H1 & H2 & H3 & H4 & H5 & H6 & H7).
    destruct (blockSize_of_spec n ltac:(unfold INT_MAX in *; lia)) as [[Hle Hbs] | [Hov _]];
      [| exfalso; unfold round_up8 in Hov; liam].
    assert (Hnn : NULL <> NULL -> mapped h NULL = true /\ hsize (mem h NULL) = 0)
      by (intros []; reflexivity).
    destruct (scan_spec (blockSize_of n) _ ws fuel (heap_start h) NULL 0 h H6 H7
                (wf_covers _ _ Hwf) Hnn) as [Hs | [_ Hlt]]; [|lia].
    destruct (pick_cases (blockSize_of n) ws (heap_start h) NULL 0)
      as [Hp | (y & w & Hin & Hel & Hp)]; rewrite Hp in Hs.
    + exists NULL, h. unfold balloc. rewrite (proj2 (Z.ltb_ge n 1) Hge). cbv zeta.
      rewrite (bind_Ok get_heap_start _ h _ h eq_refl), (bind_Ok _ _ _ _ _ Hs). cbv beta.
      rewrite Z.eqb_refl. split; [reflexivity | exists ws; exact Hwf].
    + destruct (in_blocks_split _ _ _ _ Hin) as (pre & post & Hws & Hy). rewrite Hy in Hs.
      assert (Hb8 : 8 <= blockSize_of n) by (rewrite Hbs; apply blockSize_ge8; exact Hge).
      assert (Hbm : blockSize_of n mod 8 = 0) by (rewrite Hbs; apply round_up8_mult).
      destruct (balloc_place fuel n h ws pre w post Hwf Hws Hge Hb8 Hbm Hel Hs)
        as (h2 & ws2 & Hb2 & Hwf2 & _).
      exists (heap_start h + sum_sizes pre + sizeof_blockHeader), h2.
      split; [exact Hb2 | exists ws2; exact Hwf2].
Qed.

Lemma balloc_no_fault_witness :
  exists r h', balloc 4 100 h_pair_freed = Ok r h' /\ exists ws', wf h' ws'.
Proof.
  apply (balloc_no_fault 4 100 h_pair_freed [26; 24; 25; 4018]);
    [concrete | unfold INT_MAX; lia | cbn; lia].
Defined.

(** The inner loop of [coalesce] ends without a fault when its budget
    covers the blocks after [c]. *)
Lemma coalesce_merge_ok e t : forall fuel h c w,
  seg (mem h) c e (w :: t) -> mem h e = 1 -> covers h c e -> e - c + 3 <= INT_MAX ->
  (length t <= fuel)%nat ->
  exists nb h', coalesce_merge fuel c (c + hsize w) h = Ok nb h'.
Proof.
  induction t as [|w2 t2 IH]; intros fuel h c w Hs He Hc Hb Hl;
    destruct Hs as (Hmc & Hv & Hs); pose proof Hv as (Hw0 & Hw8 & Hw80).
  - simpl in Hs. rewrite Hs.
    assert (Hem : mapped h e = true) by (apply Hc; lia).
    destruct fuel; cbn [coalesce_merge]; rewrite (load_bind _ _ _ Hem), He;
      eexists _, _; reflexivity.
  - destruct Hs as (Hm2 & Hv2 & Hs2). pose proof Hv2 as (Hv20 & Hv28 & Hv280).
    pose proof (seg_len _ _ _ _ Hs2) as L2.
    assert (Hnm : mapped h (c + hsize w) = true) by (apply Hc; lia).
    assert (Hcm : mapped h c = true) by (apply Hc; lia).
    destruct (Z.eqb_spec (Z.land w2 1) 0) as [Hf2 | Hnf2].
    + destruct fuel as [|f]; [cbn in Hl; lia|].
      cbn [coalesce_merge]. rewrite (load_bind _ _ _ Hnm), Hm2.
      rewrite (proj2 (Z.eqb_neq w2 1) (valid_ne1 _ Hv2)), Hf2. cbn [negb andb Z.eqb].
      rewrite (load_bind _ _ _ Hcm), Hmc.
      change (Z.land w2 (Z.lnot 3)) with (hsize w2).
      pose proof (hsize_le w Hw0) as Hwle.
      rewrite (to_int_small (w + hsize w2)) by lia'.
      rewrite (store_seq _ _ _ _ Hcm).
      set (w' := w + hsize w2).
      set (m1 := upd (mem h) c w').
      rewrite (load_bind (with_mem h m1) c _ Hcm). cbn [mem with_mem].
      unfold m1 at 1. rewrite upd_eq.
      change (Z.land w' (Z.lnot 3)) with (hsize w').
      assert (Hsw' : hsize w' = hsize w + hsize w2)
        by (unfold w'; apply hsize_add, valid_mod4, Hv2).
      assert (Hs' : seg (mem (with_mem h m1)) c e (w' :: t2)).
      { cbn [mem with_mem seg]. split; [apply upd_eq|]. split.
        - unfold valid_hdr. rewrite Hsw'.
          split; [unfold w'; pose proof (hsize_nonneg w2 Hv20); lia|].
          split; [lia|]. liam.
        - rewrite Hsw', Z.add_assoc. apply (seg_frame_range (mem h)); [exact Hs2|].
          intros y Hy. unfold m1. apply upd_ne. lia'. }
      assert (He' : mem (with_mem h m1) e = 1)
        by (cbn [mem with_mem]; unfold m1; rewrite upd_ne by lia'; exact He).
      exact (IH f (with_mem h m1) c w' Hs' He' (covers_with_mem _ _ _ _ Hc) Hb
               ltac:(cbn in Hl; lia)).
    + destruct fuel as [|f]; cbn [coalesce_merge]; rewrite (load_bind _ _ _ Hnm), Hm2;
        rewrite (proj2 (Z.eqb_neq w2 1) (valid_ne1 _ Hv2)), (proj2 (Z.eqb_neq _ 0) Hnf2);
        eexists _, _; reflexivity.
Qed.

(** The outer loop of [coalesce] ends without a fault when both budgets
    cover the blocks from [c]. *)
Lemma coalesce_loop_ok e mf : forall fuel ws h c,
  seg (mem h) c e ws -> mem h e = 1 -> covers h c e -> e - c + 3 <= INT_MAX ->
  (length ws <= fuel)%nat -> (length ws <= mf)%nat ->
  exists h', coalesce_loop mf fuel c h = Ok tt h'.
Proof.
  induction fuel as [|f IH]; intros ws h c Hs He Hc Hb Hl Hlm;
    (destruct ws as [|w t];
     [simpl in Hs; subst c; exists h; apply coalesce_loop_end; [apply Hc; lia | exact He]|]);
    [cbn in Hl; lia|].
  destruct Hs as (Hmc & Hv & Hs). pose proof Hv as (Hw0 & Hw8 & Hw80).
  pose proof (seg_len _ _ _ _ Hs) as L.
  assert (Hcm : mapped h c = true) by (apply Hc; lia).
  cbn [coalesce_loop]. rewrite (load_bind _ _ _ Hcm), Hmc.
  rewrite (proj2 (Z.eqb_neq w 1) (valid_ne1 _ Hv)). cbv beta iota.
  destruct (Z.eqb_spec (Z.land w 1) 0) as [Hf | Hnf].
  - change (Z.land w (Z.lnot 3)) with (hsize w).
    destruct (coalesce_merge_ok e t mf h c w (conj Hmc (conj Hv Hs)) He Hc Hb
                ltac:(cbn in Hlm; lia)) as (nb & h1 & Hmg).
    destruct (coalesce_merge_spec e t mf h c w nb h1 (conj Hmc (conj Hv Hs)) He Hc Hb Hmg)
      as (run & rest & Ht & Hrun & Hrest & Hh1 & Hnb).
    rewrite Ht in Hs, Hl, Hlm. apply seg_app in Hs. destruct Hs as [Hsrun Hsrest].
    rewrite <- Hnb in Hsrest.
    pose proof (seg_len _ _ _ _ Hsrun) as Lrun.
    pose proof (seg_len _ _ _ _ Hsrest) as Lrest.
    cbn [length] in Hl, Hlm. rewrite length_app in Hl, Hlm.
    set (W := w + sum_sizes run) in *.
    set (m1 := upd (mem h) c W) in *.
    assert (Hnbc : c < nb <= e) by lia'.
    assert (HnbM : mapped h nb = true) by (apply Hc; lia').
    assert (Hm1nb : m1 nb = mem h nb) by (unfold m1; apply upd_ne; lia').
    assert (HsW : hsize W = nb - c).
    { unfold W. rewrite hsize_add by (pose proof (seg_sum_mod8 _ _ _ _ Hsrun); liam). lia'. }
    subst h1.
    match goal with |- exists _, bind ?X _ h = _ =>
      assert (HX : exists m2 rest', X h = Ok tt (with_mem h m2) /\ seg m2 nb e rest' /\
                     m2 e = 1 /\ m2 c = W /\ length rest' = length rest) end.
    { rewrite (bind_Ok _ _ _ _ _ Hmg). cbv beta.
      rewrite (load_bind (with_mem h m1) nb _ HnbM). cbn [mem with_mem]. rewrite Hm1nb.
      destruct Hrest as [-> | (w2 & t2 & -> & Hnf2)].
      - simpl in Hsrest. rewrite Hsrest, He. cbn [negb Z.eqb].
        exists m1, []. split; [reflexivity|]. split; [reflexivity|].
        split; [unfold m1; rewrite upd_ne by lia'; exact He|].
        split; [apply upd_eq | reflexivity].
      - destruct Hsrest as (Hm2 & Hv2 & Hs2). pose proof Hv2 as (_ & Hv28 & _).
        pose proof (seg_len _ _ _ _ Hs2) as L2.
        rewrite Hm2, (proj2 (Z.eqb_neq w2 1) (valid_ne1 _ Hv2)). cbn [negb].
        rewrite (store_ok (with_mem h m1) nb _ HnbM).
        exists (upd m1 nb (Z.lor w2 2)), (Z.lor w2 2 :: t2). split; [reflexivity|]. split.
        + cbn [seg]. split; [apply upd_eq|]. split; [apply valid_lor2, Hv2|].
          rewrite hsize_lor2. apply (seg_frame_range (mem h)); [exact Hs2|].
          intros y Hy0. unfold m1. rewrite !upd_ne by lia'. reflexivity.
        + split; [unfold m1; rewrite !upd_ne by lia'; exact He|].
          split; [rewrite upd_ne by lia'; apply upd_eq | reflexivity]. }
    destruct HX as (m2 & rest' & HX & Hs2 & He2 & Hm2c & Hlen).
    rewrite (bind_Ok _ _ _ _ _ HX). cbv beta.
    rewrite (load_bind (with_mem h m2) c _ Hcm). cbn [mem with_mem]. rewrite Hm2c.
    change (Z.land W (Z.lnot 3)) with (hsize W). rewrite HsW.
    replace (c + (nb - c)) with nb by lia.
    assert (Hc2 : covers (with_mem h m2) nb e)
      by (intros y Hy'; rewrite mapped_with_mem; apply Hc; lia).
    exact (IH rest' (with_mem h m2) nb Hs2 He2 Hc2 ltac:(lia) ltac:(lia) ltac:(lia)).
  - rewrite (bind_Ok (ret tt) _ h tt h eq_refl). cbv beta.
    rewrite (load_bind _ _ _ Hcm), Hmc.
    change (Z.land w (Z.lnot 3)) with (hsize w).
    assert (Hc' : covers h (c + hsize w) e) by (intros y Hy; apply Hc; lia).
    exact (IH t h (c + hsize w) Hs He Hc' ltac:(lia) ltac:(cbn in Hl; lia)
             ltac:(cbn in Hlm; lia)).
Qed.

(** X13: on an initialized heap, with a budget of at least the number of
    blocks, [coalesce] never faults: it returns 0 and the heap stays well
    formed. *)
Theorem coalesce_no_fault fuel h ws :
  wf h ws -> (length ws <= fuel)%nat ->
  exists h', coalesce fuel h = Ok 0 h' /\ exists ws', wf h' ws'.
Proof.
  intros Hwf Hl. pose proof Hwf as (H1 & H2 & H3 & H4 & H5 & H6 & H7).
  destruct (coalesce_loop_ok _ fuel fuel ws h (heap_start h) H6 H7 (wf_covers _ _ Hwf)
              ltac:(lia') Hl Hl) as (h' & Hlp).
  assert (Hc : coalesce fuel h = Ok 0 h').
  { unfold coalesce. rewrite (bind_Ok get_heap_start _ h _ h eq_refl).
    rewrite (bind_Ok _ _ _ _ _ Hlp). reflexivity. }
  exists h'. split; [exact Hc|].
  destruct (coalesce_spec _ _ _ _ _ Hwf Hc) as (_ & ws' & Hwf' & _). exists ws'. exact Hwf'.
Qed.

Lemma coalesce_no_fault_witness :
  exists h', coalesce 4 h_pair_freed = Ok 0 h' /\ exists ws', wf h' ws'.
Proof. apply (coalesce_no_fault 4 h_pair_freed [26; 24; 25; 4018]); [concrete | cbn; lia]. Defined.

(** A successful [bfree] leaves bit 0 of the freed header cleared. *)
Lemma bfree_clears_bit0 ptr h h' :
  bfree ptr h = Ok 0 h' -> Z.land (mem h' (ptr - sizeof_blockHeader)) 1 = 0.
Proof.
  intros Hb. destruct (bfree_cases _ _ _ _ Hb) as [[E _] | (_ & _ & _ & _ & ->)]; [discriminate|].
  set (block := ptr - sizeof_blockHeader).
  set (m1 := upd (mem h) block (Z.land (mem h block) (Z.lnot 1))).
  set (nb := block + hsize (Z.land (mem h block) (Z.lnot 1))).
  assert (Hm1 : m1 block = Z.land (mem h block) (Z.lnot 1)) by apply upd_eq.
  cbn [mem with_mem]. destruct (m1 nb =? 1).
  - rewrite Hm1. apply par_clear1.
  - destruct (Z.eq_dec block nb) as [E | E].
    + rewrite <- E, upd_eq, par_clear2, Hm1. apply par_clear1.
    + rewrite upd_ne by exact E. rewrite Hm1. apply par_clear1.
Qed.

(** The decoded blocks do not overlap. *)
Lemma blocks_disjoint m a b ws y1 w1 y2 w2 :
  seg m a b ws -> In (y1, w1) (blocks a ws) -> In (y2, w2) (blocks a ws) ->
  y1 = y2 \/ y1 + hsize w1 <= y2 \/ y2 + hsize w2 <= y1.
Proof.
  revert a; induction ws as [|w t IH]; intros a Hs H1 H2; [contradiction|].
  destruct Hs as (Hm & Hv & Hs). cbn [blocks] in H1, H2.
  destruct H1 as [E1 | H1]; destruct H2 as [E2 | H2].
  - injection E1 as <- _. injection E2 as <- _. left. reflexivity.
  - injection E1 as <- <-. destruct (seg_blocks _ _ _ _ _ _ Hs H2) as (Ha & _). lia.
  - injection E2 as <- <-. destruct (seg_blocks _ _ _ _ _ _ Hs H1) as (Ha & _). lia.
  - exact (IH _ Hs H1 H2).
Qed.

Lemma in_alloc_blocks a ws y s :
  In (y, s) (alloc_blocks a ws) ->
  exists w, In (y, w) (blocks a ws) /\ Z.land w 1 <> 0 /\ s = hsize w.
Proof.
  revert a; induction ws as [|w t IH]; intros a H; [contradiction|].
  cbn [alloc_blocks] in H. apply in_app_or in H. destruct H as [H | H].
  - destruct (Z.eqb_spec (Z.land w 1) 0) as [E | E]; [contradiction|].
    destruct H as [[= <- <-] | []]. exists w. split; [left; reflexivity | auto].
  - destruct (IH _ H) as (w' & Hin & Hb & Hs). exists w'. split; [right; exact Hin | auto].
Qed.

(** X14: a successful [bfree] cannot be repeated: freeing the same pointer
    again returns -1 and changes nothing. *)
Theorem bfree_double_free ptr h h' :
  bfree ptr h = Ok 0 h' -> bfree ptr h' = Ok (-1) h'.
Proof.
  intros Hb. pose proof (bfree_clears_bit0 _ _ _ Hb) as H0.
  destruct (bfree_cases _ _ _ _ Hb) as [[E _] | (_ & Hg & Hm & _ & Hh')]; [discriminate|].
  assert (Hg' : bfree_rejects h' ptr = false) by (rewrite Hh'; exact Hg).
  assert (Hm' : mapped h' (ptr - sizeof_blockHeader) = true)
    by (rewrite Hh', mapped_with_mem; exact Hm).
  exact (bfree_already_free ptr h' Hg' Hm' H0).
Qed.

Lemma bfree_double_free_witness : bfree 1048584 h_freed = Ok (-1) h_freed.
Proof. apply (bfree_double_free 1048584 h_two h_freed). vm_compute. reflexivity. Defined.

(** X15: the block [balloc] hands out does not overlap any block that was
    allocated before the call. *)
Theorem balloc_disjoint fuel n h ws r h' :
  wf h ws -> n <= INT_MAX -> balloc fuel n h = Ok r h' -> r <> NULL ->
  forall y s, In (y, s) (alloc_blocks (heap_start h) ws) ->
    y + s <= r - sizeof_blockHeader \/
    r - sizeof_blockHeader + hsize (mem h' (r - sizeof_blockHeader)) <= y.
Proof.
  intros Hwf Hn Hb Hr y s Hys.
  destruct (balloc_cases _ _ _ _ _ _ Hwf Hn Hb)
    as [[E _] | (pre & w & post & Hws & Hge & Hbs & Hel & -> & _ & _ & _ & Hsz & _)];
    [contradiction|].
  replace (heap_start h + sum_sizes pre + sizeof_blockHeader - sizeof_blockHeader)
    with (heap_start h + sum_sizes pre) by lia.
  destruct (wf_block_at _ _ _ _ _ Hwf Hws) as (_ & _ & Hmw & _ & Hin & _).
  destruct (in_alloc_blocks _ _ _ _ Hys) as (w' & Hin' & Ha' & ->).
  pose proof Hwf as (_ & _ & _ & _ & _ & H6 & _).
  destruct (blocks_disjoint _ _ _ _ _ _ _ _ H6 Hin Hin') as [E | [E | E]].
  - exfalso. destruct (seg_blocks _ _ _ _ _ _ H6 Hin') as (_ & _ & Hmw' & _).
    rewrite <- E, Hmw in Hmw'. subst w'. apply Ha'. exact (proj1 Hel).
  - lia.
  - lia.
Qed.

Lemma balloc_disjoint_witness :
  In (1048604, 24) (alloc_blocks (heap_start h_freed) [26; 25; 4042]) /\
  (1048604 + 24 <= 1048584 - sizeof_blockHeader \/
   1048584 - sizeof_blockHeader + hsize (mem h_split (1048584 - sizeof_blockHeader)) <= 1048604).
Proof.
  split; [vm_compute; left; reflexivity|].
  apply (balloc_disjoint 100 4 h_freed [26; 25; 4042]);
    [concrete | unfold INT_MAX; lia | concrete | discriminate | vm_compute; left; reflexivity].
Defined.

(** X16: [disp_heap] before a successful [init_heap] reads through the NULL
    [heap_start]: a fault. *)
Theorem disp_heap_before_init fuel h : uninit h -> disp_heap fuel h = Fault.
Proof.
  intros Hu. pose proof Hu as (_ & _ & Hhs). unfold disp_heap.
  rewrite (bind_Ok get_heap_start _ h _ h eq_refl), Hhs.
  destruct fuel; cbn [disp_loop]; apply bind_Fault, load_fault, mapped_uninit, Hu.
Qed.

Lemma disp_heap_before_init_witness : disp_heap 10 heap0 = Fault.
Proof. apply disp_heap_before_init. concrete. Defined.
